(** * ppagerank: the driver of a distributed-memory PageRank (ppagerank.cc)

    A shallow embedding of [main], [WriteHeader], [WriteSimpleMatrixStats]
    and [ComputePageRank], over a model of the PETSc/MPI calls they make.

    The program is SPMD: every process of PETSC_COMM_WORLD runs the same
    statements in lockstep.  The embedding follows the whole group at once:
    a C variable that holds the same value on every process is a plain
    value, a variable whose value depends on the process (rank, processor
    name, local sizes) is a list with one entry per rank. *)

From Stdlib Require Import ZArith List String Ascii Bool Lia QArith Qabs DecimalString.
Import ListNotations.
Local Open Scope string_scope.
Local Open Scope Z_scope.

(** ** Values of the PETSc/MPI interface *)

Definition PetscErrorCode := Z.
Definition MPI_SUCCESS : PetscErrorCode := 0.

Inductive MPI_Comm := PETSC_COMM_WORLD.

(** A [Mat] is a handle; the matrix it designates lives in the world. *)
Definition Mat := nat.

(** One value per process of the group, in rank order. *)
Definition PerProc (A : Type) := list A.

(** The partitioned matrix as the program can observe it: global sizes, the
    row range and the local column count of every rank, and the local
    non-zero entries (local row, global column, weight) of every rank. *)
Record MatData := mkMat {
  mat_rows : Z;
  mat_cols : Z;
  mat_ranges : PerProc (Z * Z);
  mat_lcols : PerProc Z;
  mat_entries : PerProc (list (Z * Z * Q))
}.

Definition empty_mat : MatData := mkMat 0 0 [] [] [].

(** Files, decoded: a matrix file is its header and its records, a vector
    file its entries. *)
Record bsmat := mkBsmat {
  hdr_rows : Z;
  hdr_cols : Z;
  hdr_nnz : Z;
  records : list (Z * Z * Q)
}.

Inductive file :=
| FMatrix (b : bsmat)
| FVector (v : list Q).

Inductive arg :=
| AInt (z : Z)
| ALong (z : Z)
| AStr (s : string)
| AChar (c : ascii).

Inductive MPI_Op := MPI_MAX | MPI_MIN.

(** What a run does that can be seen from outside, in order. *)
Inductive event :=
| EInitialize
| EFinalize
| EPrintf (fmt : string) (args : list arg)
| ESynchronizedPrintf (rank : Z) (fmt : string) (args : list arg)
| ESynchronizedFlush
| EBarrier
| EReduce (op : MPI_Op) (result : Z)
| EError (funct : string) (code : PetscErrorCode)
| EMatMult (A : Mat)
| ESumReduce (result : Q).

(** ** The world

    [w_options] is the PETSc options database as [PetscInitialize] builds it
    (an option is absent, present without a value, or present with one);
    [w_err] gives, in order, the code returned by each library call whose
    code the program checks (calls beyond the list succeed). *)
Record World := mkWorld {
  w_options : list (string * option string);
  w_files : list (string * file);
  w_size : nat;
  w_names : PerProc string;
  w_mats : list MatData;
  w_vecs : list (list Q);
  w_err : list PetscErrorCode;
  w_calls : nat;
  w_trace : list event
}.

Definition log (e : event) (w : World) : World :=
  mkWorld (w_options w) (w_files w) (w_size w) (w_names w) (w_mats w)
          (w_vecs w) (w_err w) (w_calls w) (w_trace w ++ [e]).

Definition bump (w : World) : World :=
  mkWorld (w_options w) (w_files w) (w_size w) (w_names w) (w_mats w)
          (w_vecs w) (w_err w) (S (w_calls w)) (w_trace w).

Definition add_mat (d : MatData) (w : World) : World :=
  mkWorld (w_options w) (w_files w) (w_size w) (w_names w) (w_mats w ++ [d])
          (w_vecs w) (w_err w) (w_calls w) (w_trace w).

Fixpoint lookup {A : Type} (k : string) (l : list (string * A)) : option A :=
  match l with
  | [] => None
  | (k', v) :: l' => if String.eqb k k' then Some v else lookup k l'
  end.

Definition has_option (name : string) (w : World) : bool :=
  match lookup name (w_options w) with Some _ => true | None => false end.

(** ** A state and error monad for PETSc code

    A PETSc function returns an error code and writes its results through
    pointers; here it returns [Ok] with its results, or [Err] with a nonzero
    code. *)
Inductive Res (A : Type) :=
| Ok (a : A)
| Err (e : PetscErrorCode).
Arguments Ok {A} a.
Arguments Err {A} e.

Definition M (A : Type) := World -> Res A * World.

Definition ret {A} (a : A) : M A := fun w => (Ok a, w).

Definition bind {A B} (m : M A) (f : A -> M B) : M B :=
  fun w => match m w with
           | (Ok a, w') => f a w'
           | (Err e, w') => (Err e, w')
           end.

Notation "x <- m ;; k" := (bind m (fun x => k))
  (at level 61, m at next level, right associativity).
Notation "m ;; k" := (bind m (fun _ => k))
  (at level 61, right associativity).

Definition status {A} (r : Res A) : PetscErrorCode :=
  match r with Ok _ => MPI_SUCCESS | Err e => e end.

(** [CHKERRQ(ierr)] after a call made in function [funct]: a nonzero code
    goes through PetscError, which reports it, and is returned at once. *)
Definition CHKERRQ {A} (funct : string) (m : M A) : M A :=
  fun w => match m w with
           | (Ok a, w') => (Ok a, w')
           | (Err e, w') => (Err e, log (EError funct e) w')
           end.

(** A call whose returned code the program drops. *)
Definition unchecked (m : M unit) : M unit :=
  fun w => (Ok tt, snd (m w)).

(** A C function that returns a code and writes its result through a
    pointer. *)
Definition of_c {A} (f : World -> (PetscErrorCode * A) * World) : M A :=
  fun w => match f w with
           | ((ierr, a), w') => if ierr =? 0 then (Ok a, w') else (Err ierr, w')
           end.

Fixpoint repeatM (n : nat) (m : M unit) : M unit :=
  match n with
  | O => ret tt
  | S n' => m ;; repeatM n' m
  end.

(** ** The library calls the driver makes *)

(** The code of the next checked library call. *)
Definition lib_status : M unit :=
  fun w => let c := nth (w_calls w) (w_err w) 0 in
           if c =? 0 then (Ok tt, bump w) else (Err c, bump w).

Definition emit (e : event) : M unit := fun w => (Ok tt, log e w).

(** [PetscInitialize(&argc, &argv, (char* )0, help)]: the options database
    it fills is [w_options]; it prints the help text of the program when
    -help is among the options. *)
Definition PetscInitialize (help_text : string) : M unit :=
  lib_status ;;
  emit EInitialize ;;
  fun w => (Ok tt, if has_option "-help" w
                   then log (EPrintf help_text []) w else w).

Definition PetscFinalize : M unit := emit EFinalize.

Definition PetscPrintf (comm : MPI_Comm) (fmt : string) (args : list arg)
  : M unit := emit (EPrintf fmt args).

Fixpoint sync_events (r : Z) (fmt : string) (args : PerProc (list arg))
  : list event :=
  match args with
  | [] => []
  | a :: args' => ESynchronizedPrintf r fmt a :: sync_events (r + 1) fmt args'
  end.

Definition PetscSynchronizedPrintf (comm : MPI_Comm) (fmt : string)
  (args : PerProc (list arg)) : M unit :=
  fun w => (Ok tt, fold_left (fun w e => log e w) (sync_events 0 fmt args) w).

Definition PetscSynchronizedFlush (comm : MPI_Comm) : M unit :=
  emit ESynchronizedFlush.

(** The string is copied into a buffer of [len] characters. *)
Definition PetscOptionsGetString (name : string) (len : nat)
  : M (string * bool) :=
  lib_status ;;
  fun w => match lookup name (w_options w) with
           | None => (Ok (EmptyString, false), w)
           | Some None => (Ok (EmptyString, true), w)
           | Some (Some v) => (Ok (substring 0 len v, true), w)
           end.

Definition PetscOptionsHasName (name : string) : M bool :=
  fun w => match lookup name (w_options w) with
           | None => (Ok false, w)
           | Some _ => (Ok true, w)
           end.

Definition MPI_Comm_size (comm : MPI_Comm) : M Z :=
  lib_status ;; fun w => (Ok (Z.of_nat (w_size w)), w).

Definition MPI_Comm_rank (comm : MPI_Comm) : M (PerProc Z) :=
  lib_status ;; fun w => (Ok (map Z.of_nat (seq 0 (w_size w))), w).

Definition MPI_Get_processor_name : M (PerProc string) :=
  fun w => (Ok (map (fun r => nth r (w_names w) EmptyString)
                    (seq 0 (w_size w))), w).

Definition MPI_Barrier (comm : MPI_Comm) : M unit :=
  lib_status ;; emit EBarrier.

Definition reduce (op : MPI_Op) (v : PerProc Z) : Z :=
  match v with
  | [] => 0
  | x :: v' =>
      fold_left (match op with MPI_MAX => Z.max | MPI_MIN => Z.min end) v' x
  end.

(** The result is the one received by the root, rank 0, the only process
    that prints it. *)
Definition MPI_Reduce (v : PerProc Z) (op : MPI_Op) (comm : MPI_Comm) : M Z :=
  lib_status ;; emit (EReduce op (reduce op v)) ;; ret (reduce op v).

Definition mat_data (A : Mat) (w : World) : MatData :=
  nth A (w_mats w) empty_mat.

Definition PetscObjectGetComm (A : Mat) : M MPI_Comm :=
  ret PETSC_COMM_WORLD.

Definition MatGetSize (A : Mat) : M (Z * Z) :=
  fun w => (Ok (mat_rows (mat_data A w), mat_cols (mat_data A w)), w).

Definition MatGetLocalSize (A : Mat) : M (PerProc Z * PerProc Z) :=
  fun w => (Ok (map (fun r => snd r - fst r) (mat_ranges (mat_data A w)),
                mat_lcols (mat_data A w)), w).

(** Modelled from the spec: MatGetNonzeroCount is declared in petsc_util.h,
    which is not part of the source; it yields the global and the local
    non-zero counts of the matrix (section 3, DistributedSparseMatrix). *)
Definition MatGetNonzeroCount (A : Mat) : M (Z * PerProc Z) :=
  fun w =>
    let local := map (fun l => Z.of_nat (List.length l))
                     (mat_entries (mat_data A w)) in
    (Ok (fold_left Z.add local 0, local), w).

(** ** ppagerank.cc *)

Definition nl : string := String (ascii_of_nat 10) EmptyString.

Definition lines (l : list string) : string :=
  String.concat EmptyString (map (fun s => s ++ nl) l).

Definition version_major : Z := 0.
Definition version_minor : Z := 0.

Definition help : string := lines [
  "usage: ppagerank -m <filename> [options]";
  "";
  "Data";
  "  -m <filename>    (REQUIRED) Load the matrix given by filename";
  "";
  "PageRank parameters";
  "  -alpha <float>   Set the value of the pagerank alpha parameter";
  "                   default = 0.85";
  "  -pvec <filename> Set the personalization vector";
  "                   default = (1/n) for each entry";
  "";
  "Additional options";
  "  -noout           Do not write any output information";
  "  -trans           The input matrix is transposed";
  "";
  "Matrix Loading options";
  "  -matload_root_nz_bufsize <int>     The nonzero buffer size to read and";
  "                                     send non-zero values to other procs";
  "                                     default = 2^25 (33554432)";
  "  -matload_redistribute              A binary switch indicating that the ";
  "                                     matrix will be redistributed to balance";
  "                                     non-zeros and rows among processors";
  "  -matload_redistribute_wnnz <int>   The weight of each non-zero in the";
  "                                     distribution.";
  "                                     default = 1";
  "  -matload_redistribute_wrows <int>  The weight of each row in the";
  "                                     distribution.";
  "                                     default = 1"
].

Definition no_matrix_msg : string :=
  nl ++ "Options error: no matrix file specified!" ++ nl ++ nl.

Definition WriteHeader : M unit :=
  repeatM 60 (PetscPrintf PETSC_COMM_WORLD "%c" [AChar "="%char]) ;;
  PetscPrintf PETSC_COMM_WORLD nl [] ;;
  PetscPrintf PETSC_COMM_WORLD ("ppagerank %i.%i" ++ nl ++ nl)
              [AInt version_major; AInt version_minor] ;;
  PetscPrintf PETSC_COMM_WORLD ("David Gleich" ++ nl) [] ;;
  PetscPrintf PETSC_COMM_WORLD ("Copyright, 2006" ++ nl) [] ;;
  repeatM 60 (PetscPrintf PETSC_COMM_WORLD "%c" [AChar "="%char]) ;;
  PetscPrintf PETSC_COMM_WORLD nl [] ;;
  size <- CHKERRQ "WriteHeader" (MPI_Comm_size PETSC_COMM_WORLD) ;;
  rank <- CHKERRQ "WriteHeader" (MPI_Comm_rank PETSC_COMM_WORLD) ;;
  name <- MPI_Get_processor_name ;;
  PetscPrintf PETSC_COMM_WORLD ("nprocs = %i" ++ nl) [AInt size] ;;
  PetscSynchronizedPrintf PETSC_COMM_WORLD ("[%3i] %s running..." ++ nl)
    (map (fun rn => [AInt (fst rn); AStr (snd rn)]) (combine rank name)) ;;
  PetscSynchronizedFlush PETSC_COMM_WORLD ;;
  CHKERRQ "WriteHeader" (MPI_Barrier PETSC_COMM_WORLD) ;;
  ret tt.

Definition WriteSimpleMatrixStats (filename : string) (A : Mat) : M unit :=
  let chk := @CHKERRQ Z "WriteSimpleMatrixStats" in
  comm <- PetscObjectGetComm A ;;
  mn <- MatGetSize A ;;
  mnl <- MatGetLocalSize A ;;
  let (m, n) := mn in
  let (ml, nl_) := mnl in
  max_local_rows <- chk (MPI_Reduce ml MPI_MAX comm) ;;
  min_local_rows <- chk (MPI_Reduce ml MPI_MIN comm) ;;
  max_local_columns <- chk (MPI_Reduce nl_ MPI_MAX comm) ;;
  min_local_columns <- chk (MPI_Reduce nl_ MPI_MIN comm) ;;
  nz <- MatGetNonzeroCount A ;;
  let (total_nz, local_nz) := nz in
  max_local_nz <- chk (MPI_Reduce local_nz MPI_MAX comm) ;;
  min_local_nz <- chk (MPI_Reduce local_nz MPI_MIN comm) ;;
  PetscPrintf comm ("matrix %s" ++ nl) [AStr filename] ;;
  PetscPrintf comm ("rows       = %10i" ++ nl) [AInt m] ;;
  PetscPrintf comm ("columns    = %10i" ++ nl) [AInt n] ;;
  PetscPrintf comm ("nnz        = %10lli" ++ nl) [ALong total_nz] ;;
  PetscPrintf comm ("local rows = (%10i,%10i)" ++ nl)
              [AInt min_local_rows; AInt max_local_rows] ;;
  PetscPrintf comm ("local cols = (%10i,%10i)" ++ nl)
              [AInt min_local_columns; AInt max_local_columns] ;;
  PetscPrintf comm ("local nzs  = (%10i,%10i)" ++ nl)
              [AInt min_local_nz; AInt max_local_nz] ;;
  ret tt.

(** A matrix loader: a C function of a communicator and a file name that
    returns a code and writes the handle of the matrix it built. *)
Definition MatLoader : Type :=
  MPI_Comm -> string -> World -> (PetscErrorCode * Mat) * World.

(** The body is [return (MPI_SUCCESS);]. *)
Definition ComputePageRank (A : Mat) : M unit := ret tt.

Section Driver.

(** Declared in petsc.h and petsc_util.h, which are not part of the
    source: the length of a path buffer, and the matrix loader, a C
    function that returns a code and writes the handle of the matrix. *)
Variable PETSC_MAX_PATH_LEN : nat.
Variable MatLoadBSMAT : MatLoader.

Definition main_body (argc : Z) : M Z :=
  CHKERRQ "main" (PetscInitialize help) ;;
  if argc <? 2 then
    PetscPrintf PETSC_COMM_WORLD help [] ;;
    PetscFinalize ;;
    ret (-1)
  else
    mf <- CHKERRQ "main" (PetscOptionsGetString "-m" PETSC_MAX_PATH_LEN) ;;
    let (matrix_filename, option_flag) := mf : string * bool in
    if negb option_flag then
      PetscPrintf PETSC_COMM_WORLD no_matrix_msg [] ;;
      PetscFinalize ;;
      ret (-1)
    else
      script <- PetscOptionsHasName "-script" ;;
      unchecked WriteHeader ;;
      A <- CHKERRQ "main"
             (of_c (MatLoadBSMAT PETSC_COMM_WORLD matrix_filename)) ;;
      unchecked (WriteSimpleMatrixStats matrix_filename A) ;;
      (if script : bool then ret tt else ret tt) ;;
      PetscFinalize ;;
      ret 0.

(** The value [main] returns, and the world it leaves. *)
Definition main (argc : Z) (w : World) : Z * World :=
  match main_body argc w with
  | (Ok z, w') => (z, w')
  | (Err e, w') => (e, w')
  end.

End Driver.

(** ** The matrix loader *)

(** Modelled from the spec: MatLoadBSMAT is declared in petsc_util.h, which
    is not part of the source.  Sections 4.1, 4.2 and 6 of the spec: the
    loader reads the header and the non-zero records of the file, fails on a
    file it cannot read, on a header whose counts are inconsistent with the
    records, and on a record whose row or column is out of range; it
    partitions the rows in contiguous blocks, the remainder going to the
    lowest ranks, and hands every record to the owner of its row.  With
    -matload_redistribute the Partition Balancer replaces the block
    partition.  The spec fixes of the error codes only that they are
    nonzero; the chunk size of -matload_root_nz_bufsize bounds the memory of
    the reader and not what is delivered, so the records are handed out in
    one pass. *)
Module Loader.

Definition PETSC_ERR_ARG_OUTOFRANGE : PetscErrorCode := 63.
Definition PETSC_ERR_FILE_OPEN : PetscErrorCode := 65.
Definition PETSC_ERR_FILE_READ : PetscErrorCode := 66.
Definition PETSC_ERR_FILE_UNEXPECTED : PetscErrorCode := 67.

(** Global row count divided by process count, remainder assigned to the
    lowest-ranked processes. *)
Definition block_sizes (n : Z) (p : nat) : PerProc Z :=
  map (fun k => n / Z.of_nat p
                + (if Z.of_nat k <? n mod Z.of_nat p then 1 else 0))
      (seq 0 p).

Fixpoint ranges_from (start : Z) (sizes : list Z) : PerProc (Z * Z) :=
  match sizes with
  | [] => []
  | s :: sizes' => (start, start + s) :: ranges_from (start + s) sizes'
  end.

Definition default_partition (n : Z) (p : nat) : PerProc (Z * Z) :=
  ranges_from 0 (block_sizes n p).

(** *** Partition Balancer (section 4.2) *)

Definition outdegree (recs : list (Z * Z * Q)) (r : Z) : Z :=
  Z.of_nat (List.length (filter (fun e => fst (fst e) =? r) recs)).

Definition row_costs (w_rows w_nnz n : Z) (recs : list (Z * Z * Q)) : list Z :=
  map (fun r => w_rows + w_nnz * outdegree recs (Z.of_nat r))
      (seq 0 (Z.to_nat n)).

(** The cumulative costs before row 0, row 1, ..., and after the last. *)
Fixpoint prefix_sums (acc : Z) (costs : list Z) : list Z :=
  acc :: match costs with
         | [] => []
         | c :: costs' => prefix_sums (acc + c) costs'
         end.

(** How far the cumulative cost [c] is from [k * total / p], scaled by
    [p]. *)
Definition distance (p k total c : Z) : Z := Z.abs (p * c - k * total).

(** The row index whose cumulative cost is closest to the target of
    boundary [k]; on a tie the later index wins, which leaves the boundary
    row to the lower-indexed process. *)
Fixpoint closest_from (p k total j : Z) (sums : list Z) (best bestd : Z) : Z :=
  match sums with
  | [] => best
  | c :: sums' =>
      if distance p k total c <=? bestd
      then closest_from p k total (j + 1) sums' j (distance p k total c)
      else closest_from p k total (j + 1) sums' best bestd
  end.

Definition boundary (p k total : Z) (sums : list Z) : Z :=
  match sums with
  | [] => 0
  | c :: sums' => closest_from p k total 1 sums' 0 (distance p k total c)
  end.

Definition balanced_partition (w_rows w_nnz n : Z) (p : nat)
  (recs : list (Z * Z * Q)) : PerProc (Z * Z) :=
  let costs := row_costs w_rows w_nnz n recs in
  let total := fold_left Z.add costs 0 in
  if total =? 0 then default_partition n p
  else
    let sums := prefix_sums 0 costs in
    let cut k := if k =? 0 then 0
                 else if k =? Z.of_nat p then n
                 else boundary (Z.of_nat p) k total sums in
    map (fun k => (cut (Z.of_nat k), cut (Z.of_nat k + 1))) (seq 0 p).

(** *** Loading *)

Definition parse_int (s : string) : option Z :=
  option_map Z.of_int (NilZero.int_of_string s).

Definition int_option (name : string) (default : Z) (w : World) : Z :=
  match lookup name (w_options w) with
  | Some (Some v) => match parse_int v with Some z => z | None => default end
  | _ => default
  end.

Definition in_range (b : bsmat) (e : Z * Z * Q) : bool :=
  let '(r, c, _) := e in
  (0 <=? r) && (r <? hdr_rows b) && (0 <=? c) && (c <? hdr_cols b).

Definition local_entries (recs : list (Z * Z * Q)) (range : Z * Z)
  : list (Z * Z * Q) :=
  map (fun e => let '(r, c, x) := e in (r - fst range, c, x))
      (filter (fun e => (fst range <=? fst (fst e))
                        && (fst (fst e) <? snd range)) recs).

Definition distribute (b : bsmat) (p : nat) (ranges : PerProc (Z * Z))
  : MatData :=
  mkMat (hdr_rows b) (hdr_cols b) ranges (block_sizes (hdr_cols b) p)
        (map (local_entries (records b)) ranges).

Definition fail (code : PetscErrorCode) (w : World)
  : (PetscErrorCode * Mat) * World :=
  ((code, O), log (EError "MatLoadBSMAT" code) w).

(** Modelled from the spec: the loader itself (sections 4.1 and 7); a
    failure is reported through PetscError and leaves no matrix. *)
Definition MatLoadBSMAT : MatLoader := fun comm filename w =>
  match lookup filename (w_files w) with
  | Some (FMatrix b) =>
      if (hdr_rows b <? 0) || (hdr_cols b <? 0) || (hdr_nnz b <? 0)
         || (hdr_nnz b <? Z.of_nat (List.length (records b)))
      then fail PETSC_ERR_FILE_UNEXPECTED w
      else if Z.of_nat (List.length (records b)) <? hdr_nnz b
      then fail PETSC_ERR_FILE_READ w
      else if negb (forallb (in_range b) (records b))
      then fail PETSC_ERR_ARG_OUTOFRANGE w
      else
        let ranges :=
          if has_option "-matload_redistribute" w
          then balanced_partition
                 (int_option "-matload_redistribute_wrows" 1 w)
                 (int_option "-matload_redistribute_wnnz" 1 w)
                 (hdr_rows b) (w_size w) (records b)
          else default_partition (hdr_rows b) (w_size w) in
        ((MPI_SUCCESS, List.length (w_mats w)),
         add_mat (distribute b (w_size w) ranges) w)
  | _ => fail PETSC_ERR_FILE_OPEN w
  end.

End Loader.

(** The program as built: path buffers of 4096 characters and the loader
    above. *)
Definition ppagerank (argc : Z) (w : World) : Z * World :=
  main 4096 Loader.MatLoadBSMAT argc w.

(** ** Sample runs *)
Module Sample.

(** The graph 0 -> 1, 1 -> 2, 2 -> 0, with node 3 dangling. *)
Definition cycle : bsmat :=
  mkBsmat 4 4 3 [(0, 1, 1%Q); (1, 2, 1%Q); (2, 0, 1%Q)].

(** Node 0 links to every other node; no other node has a link. *)
Definition hub : bsmat :=
  mkBsmat 4 4 3 [(0, 1, 1%Q); (0, 2, 1%Q); (0, 3, 1%Q)].

Definition uniform4 : list Q := [1 # 4; 1 # 4; 1 # 4; 1 # 4]%Q.

(** A vector whose entries sum to 2. *)
Definition heavy4 : list Q := [1 # 2; 1 # 2; 1 # 2; 1 # 2]%Q.

Definition disk : list (string * file) :=
  [("cycle.bsmat", FMatrix cycle); ("hub.bsmat", FMatrix hub);
   ("uniform.vec", FVector uniform4); ("heavy.vec", FVector heavy4)].

(** Two processes, empty stores, every library call succeeds. *)
Definition world (options : list (string * option string)) : World :=
  mkWorld options disk 2 ["node0"; "node1"] [] [] [] 0 [].

(** ppagerank -m cycle.bsmat *)
Definition with_matrix : World := world [("-m", Some "cycle.bsmat")].

(** ppagerank -alpha 0.85 *)
Definition without_matrix : World := world [("-alpha", Some "0.85")].

(** ppagerank -m cycle.bsmat -pvec heavy.vec *)
Definition with_heavy_pvec : World :=
  world [("-m", Some "cycle.bsmat"); ("-pvec", Some "heavy.vec")].



(** ppagerank -m cycle.bsmat, where the second reduction of the
    statistics returns the code 7 *)
Definition flaky_stats : World :=
  mkWorld [("-m", Some "cycle.bsmat")] disk 2 ["node0"; "node1"]
          [] [] [0; 0; 0; 0; 0; 0; 7] 0 [].

(** ppagerank -m missing.bsmat, a file that does not exist *)
Definition missing_matrix : World := world [("-m", Some "missing.bsmat")].


End Sample.

(** ** What the spec says of the iteration engine

    Sections 4.3 and 4.4 of the spec, in its words, over exact rationals:
    these definitions are the spec's, not the program's, and serve to state
    what the spec expects of a run of [ComputePageRank]. *)
Module EngineSpec.

Local Open Scope Q_scope.

Definition vsum (x : list Q) : Q := fold_right Qplus 0 x.

Definition entry (x : list Q) (i : nat) : Q := nth i x 0.

(** The non-zero entries of the whole matrix, with global row indices. *)
Definition global_entries (d : MatData) : list (Z * Z * Q) :=
  List.concat
    (map (fun re =>
            map (fun e => let '(r, c, x) := e in
                          ((fst (fst re) + r)%Z, c, x))
                (snd re))
         (combine (mat_ranges d) (mat_entries d))).

(** The edges (from, to, weight): the edge from i to j is in row i, or in
    column i when the matrix is transposed. *)
Definition edges (trans : bool) (d : MatData) : list (Z * Z * Q) :=
  map (fun e => let '(r, c, x) := e in
                if trans then (c, r, x) else (r, c, x))
      (global_entries d).

Definition out_weight (es : list (Z * Z * Q)) (i : Z) : Q :=
  vsum (map snd (filter (fun e => (fst (fst e) =? i)%Z) es)).

(** A dangling node has no outgoing edge. *)
Definition is_dangling (es : list (Z * Z * Q)) (i : nat) : bool :=
  forallb (fun e => negb (fst (fst e) =? Z.of_nat i)%Z) es.

(** The multiply primitive, with the out-degree normalization. *)
Definition multiply (es : list (Z * Z * Q)) (n : nat) (x : list Q) : list Q :=
  map (fun j =>
         vsum (map (fun e => let '(i, _, wgt) := e in
                             (wgt / out_weight es i) * entry x (Z.to_nat i))
                   (filter (fun e => (snd (fst e) =? Z.of_nat j)%Z) es)))
      (seq 0 n).

Definition dangling_mass (es : list (Z * Z * Q)) (n : nat) (x : list Q) : Q :=
  vsum (map (entry x) (filter (is_dangling es) (seq 0 n))).

Definition next_entry (alpha : Q) (p y : list Q) (dm : Q) (i : nat) : Q :=
  alpha * (entry y i + dm * entry p i) + (1 - alpha) * entry p i.

End EngineSpec.

(** ** Observing a run *)

(** The events a run added to the trace, and the vectors it created. *)
Definition new_events (w w' : World) : list event :=
  skipn (List.length (w_trace w)) (w_trace w').

Definition new_vecs (w w' : World) : list (list Q) :=
  skipn (List.length (w_vecs w)) (w_vecs w').

Definition new_mats (w w' : World) : list MatData :=
  skipn (List.length (w_mats w)) (w_mats w').

Definition is_mult (e : event) : bool :=
  match e with EMatMult _ => true | _ => false end.

(** Every iteration applies the multiply primitive once. *)
Definition iterations (es : list event) : nat :=
  List.length (filter is_mult es).

(** The sums obtained by global reduction: dangling masses and deltas. *)
Fixpoint reduced_sums (es : list event) : list Q :=
  match es with
  | [] => []
  | ESumReduce x :: es' => x :: reduced_sums es'
  | _ :: es' => reduced_sums es'
  end.

Definition is_print (e : event) : bool :=
  match e with EPrintf _ _ => true | _ => false end.

Definition is_error (e : event) : bool :=
  match e with EError _ _ => true | _ => false end.

Definition is_finalize (e : event) : bool :=
  match e with EFinalize => true | _ => false end.

(** [w'] is [w] after further events, none of which is a finalization. *)
Definition adds_no_finalize (w w' : World) : Prop :=
  exists es : list event,
    w_trace w' = (w_trace w ++ es)%list /\ existsb is_finalize es = false.

(** A loader that does not call PetscFinalize. *)
Definition loader_never_finalizes (L : MatLoader) : Prop :=
  forall f w, adds_no_finalize w (snd (L PETSC_COMM_WORLD f w)).

(** The sample world once the cycle graph is loaded; the matrix has
    handle 0. *)
Definition loaded_world (options : list (string * option string)) : World :=
  snd (Loader.MatLoadBSMAT PETSC_COMM_WORLD "cycle.bsmat"
         (Sample.world options)).

(** ** Runs that differ in some options only *)

(** Two worlds that are the same but for the options named in [ks]. *)
Record agree (ks : list string) (w1 w2 : World) : Prop := mkAgree {
  ag_options : forall k, ~ In k ks ->
                         lookup k (w_options w1) = lookup k (w_options w2);
  ag_files : w_files w1 = w_files w2;
  ag_size : w_size w1 = w_size w2;
  ag_names : w_names w1 = w_names w2;
  ag_mats : w_mats w1 = w_mats w2;
  ag_vecs : w_vecs w1 = w_vecs w2;
  ag_err : w_err w1 = w_err w2;
  ag_calls : w_calls w1 = w_calls w2;
  ag_trace : w_trace w1 = w_trace w2
}.

(** Run from two such worlds, [m1] and [m2] return the same and leave two
    such worlds. *)
Definition sim (ks : list string) {A} (m1 m2 : M A) (w1 w2 : World) : Prop :=
  fst (m1 w1) = fst (m2 w2) /\ agree ks (snd (m1 w1)) (snd (m2 w2)).

Definition respects (ks : list string) {A} (m : M A) : Prop :=
  forall w1 w2, agree ks w1 w2 -> sim ks m m w1 w2.

(** A loader that does not consult the options named in [ks]. *)
Definition loader_ignores (ks : list string) (L : MatLoader) : Prop :=
  forall f w1 w2, agree ks w1 w2 ->
    fst (L PETSC_COMM_WORLD f w1) = fst (L PETSC_COMM_WORLD f w2) /\
    agree ks (snd (L PETSC_COMM_WORLD f w1)) (snd (L PETSC_COMM_WORLD f w2)).

Definition set_option (k : string) (v : option string) (w : World) : World :=
  mkWorld ((k, v) :: w_options w) (w_files w) (w_size w) (w_names w)
          (w_mats w) (w_vecs w) (w_err w) (w_calls w) (w_trace w).



(** ** What a statement leaves alone *)

(** Events of the library that are neither a multiply nor the reduction of
    a sum. *)
Definition quiet (e : event) : bool :=
  match e with
  | EMatMult _ | ESumReduce _ => false
  | _ => true
  end.

(** [w'] is [w] but for the count of checked calls and for further quiet
    events. *)
Record frame (w w' : World) : Prop := mkFrame {
  fr_options : w_options w' = w_options w;
  fr_files : w_files w' = w_files w;
  fr_size : w_size w' = w_size w;
  fr_names : w_names w' = w_names w;
  fr_mats : w_mats w' = w_mats w;
  fr_vecs : w_vecs w' = w_vecs w;
  fr_err : w_err w' = w_err w;
  fr_trace : exists es : list event,
      w_trace w' = (w_trace w ++ es)%list /\ forallb quiet es = true
}.

Definition frames {A} (m : M A) : Prop := forall w, frame w (snd (m w)).

(** ** Stages of [main] *)

(** The name [PetscOptionsGetString] leaves in the buffer. *)
Definition filename_of (len : nat) (v : option string) : string :=
  match v with
  | None => EmptyString
  | Some s => substring 0 len s
  end.

(** The world once [PetscInitialize] has succeeded, once the lookup of -m
    has succeeded too, and once the header has been written. *)
Definition initialized (w : World) : World :=
  if has_option "-help" w
  then log (EPrintf help []) (log EInitialize (bump w))
  else log EInitialize (bump w).

Definition started (w : World) : World := bump (initialized w).

Definition header_written (w : World) : World :=
  snd (WriteHeader (started w)).

(** ** The claims of the spec that the program does not meet, as stated *)
Module Stated.

Import EngineSpec.
Local Open Scope Q_scope.

(** After a successful load the run ends with code 0, having produced a
    PageRank vector with one entry per row of the matrix. *)
Definition computes_pagerank_after_load (argc : Z) (w : World) : Prop :=
  forall d, new_mats w (snd (ppagerank argc w)) = [d] ->
    fst (ppagerank argc w) = 0%Z /\
    exists v, In v (new_vecs w (snd (ppagerank argc w))) /\
              Z.of_nat (List.length v) = mat_rows d.

(** The engine, started on the personalization vector [p], computes a
    next vector whose entries are given by the update formula. *)
Definition next_vector_computed (A : Mat) (alpha : Q) (p : list Q)
  (w : World) : Prop :=
  let d := mat_data A w in
  let es := edges (has_option "-trans" w) d in
  let n := Z.to_nat (mat_rows d) in
  let y := multiply es n p in
  let dm := dangling_mass es n p in
  exists next, In next (new_vecs w (snd (ComputePageRank A w))) /\
    List.length next = n /\
    forall i, (i < n)%nat -> entry next i == next_entry alpha p y dm i.


(** The engine ends because some iteration has a delta below the
    tolerance, or because the iteration count exceeds the maximum, which
    it reports. *)
Definition reaches_terminal_state (A : Mat) (tolerance : Q)
  (max_iterations : nat) (w : World) : Prop :=
  let es := new_events w (snd (ComputePageRank A w)) in
  ((1 <= iterations es)%nat /\
   exists delta, In delta (reduced_sums es) /\ delta < tolerance)
  \/ ((max_iterations < iterations es)%nat /\ existsb is_print es = true).

(** Without -m the run returns a nonzero code and loads nothing; and a
    run that returns 0 has succeeded: no error is reported in it. *)
Definition exits_zero_only_on_success (argc : Z) (w : World) : Prop :=
  (lookup "-m" (w_options w) = None ->
   fst (ppagerank argc w) <> 0%Z /\
   new_mats w (snd (ppagerank argc w)) = []) /\
  (fst (ppagerank argc w) = 0%Z ->
   existsb is_error (new_events w (snd (ppagerank argc w))) = false).

(** A vector that fails the check of the loader of vectors makes the run
    fail before anything is loaded. *)
Definition validates_personalization (eps : Q) (argc : Z) (w : World)
  : Prop :=
  forall f v,
    lookup "-pvec" (w_options w) = Some (Some f) ->
    lookup f (w_files w) = Some (FVector v) ->
    ~ Qabs.Qabs (vsum v - 1) <= eps ->
    fst (ppagerank argc w) <> 0%Z /\ new_mats w (snd (ppagerank argc w)) = [].



End Stated.

(** ** What the diagnostics print *)

(** The world after the events [es], in order. *)
Definition logs (es : list event) (w : World) : World :=
  fold_left (fun w e => log e w) es w.

(** The code of the [i]-th checked library call from [w] on. *)
Definition code_at (i : nat) (w : World) : PetscErrorCode :=
  nth (i + w_calls w) (w_err w) 0.

Definition first_nonzero (codes : list PetscErrorCode) : PetscErrorCode :=
  match find (fun c => negb (c =? 0)) codes with
  | Some c => c
  | None => 0
  end.

(** The rule of sixty = signs, one [PetscPrintf] each, and the banner
    between two rules. *)
Definition rule : list event := List.repeat (EPrintf "%c" [AChar "="%char]) 60.

Definition banner : list event :=
  (rule ++ [EPrintf nl [];
            EPrintf ("ppagerank %i.%i" ++ nl ++ nl)
                    [AInt version_major; AInt version_minor];
            EPrintf ("David Gleich" ++ nl) [];
            EPrintf ("Copyright, 2006" ++ nl) []]
   ++ rule ++ [EPrintf nl []])%list.

Definition nprocs_line (w : World) : event :=
  EPrintf ("nprocs = %i" ++ nl) [AInt (Z.of_nat (w_size w))].

(** One line per process, in rank order, with its rank and its name. *)
Definition running_lines (w : World) : list event :=
  map (fun r => ESynchronizedPrintf (Z.of_nat r) ("[%3i] %s running..." ++ nl)
                  [AInt (Z.of_nat r); AStr (nth r (w_names w) EmptyString)])
      (seq 0 (w_size w)).

Definition header_events (w : World) : list event :=
  (banner ++ nprocs_line w :: running_lines w
   ++ [ESynchronizedFlush; EBarrier])%list.

(** The world [WriteHeader] leaves when its three checked calls succeed. *)
Definition header_world (w : World) : World :=
  log EBarrier (bump
    (log ESynchronizedFlush
       (logs (running_lines w)
          (log (nprocs_line w) (bump (bump (logs banner w))))))).

Definition is_barrier (e : event) : bool :=
  match e with EBarrier => true | _ => false end.

(** The local row counts and non-zero counts of the processes. *)
Definition local_rows (d : MatData) : PerProc Z :=
  map (fun r => snd r - fst r) (mat_ranges d).

Definition local_nz (d : MatData) : PerProc Z :=
  map (fun l => Z.of_nat (List.length l)) (mat_entries d).

(** The six reductions of [WriteSimpleMatrixStats] and the seven lines it
    prints. *)
Definition stats_reductions (d : MatData) : list event :=
  [EReduce MPI_MAX (reduce MPI_MAX (local_rows d));
   EReduce MPI_MIN (reduce MPI_MIN (local_rows d));
   EReduce MPI_MAX (reduce MPI_MAX (mat_lcols d));
   EReduce MPI_MIN (reduce MPI_MIN (mat_lcols d));
   EReduce MPI_MAX (reduce MPI_MAX (local_nz d));
   EReduce MPI_MIN (reduce MPI_MIN (local_nz d))].

Definition stats_lines (filename : string) (d : MatData) : list event :=
  [EPrintf ("matrix %s" ++ nl) [AStr filename];
   EPrintf ("rows       = %10i" ++ nl) [AInt (mat_rows d)];
   EPrintf ("columns    = %10i" ++ nl) [AInt (mat_cols d)];
   EPrintf ("nnz        = %10lli" ++ nl)
           [ALong (fold_left Z.add (local_nz d) 0)];
   EPrintf ("local rows = (%10i,%10i)" ++ nl)
           [AInt (reduce MPI_MIN (local_rows d));
            AInt (reduce MPI_MAX (local_rows d))];
   EPrintf ("local cols = (%10i,%10i)" ++ nl)
           [AInt (reduce MPI_MIN (mat_lcols d));
            AInt (reduce MPI_MAX (mat_lcols d))];
   EPrintf ("local nzs  = (%10i,%10i)" ++ nl)
           [AInt (reduce MPI_MIN (local_nz d));
            AInt (reduce MPI_MAX (local_nz d))]].

(** * Theorems *)

(** ** The engine: [ComputePageRank] *)

Lemma new_events_same (w : World) : new_events w w = [].
Proof. unfold new_events. apply skipn_all. Qed.

Lemma new_vecs_same (w : World) : new_vecs w w = [].
Proof. unfold new_vecs. apply skipn_all. Qed.

Lemma ComputePageRank_eq (A : Mat) (w : World) :
  ComputePageRank A w = (Ok tt, w).
Proof. reflexivity. Qed.

(** C9: for every matrix [A], [ComputePageRank] returns MPI_SUCCESS and
    leaves the whole state as it was (so the matrix is not modified and no
    vector or output is produced); what it returns does not depend on the
    matrix or on anything else, so [A] is not read. *)
Theorem ComputePageRank_is_a_no_op :
  forall (A : Mat) (w : World),
    status (fst (ComputePageRank A w)) = MPI_SUCCESS /\
    snd (ComputePageRank A w) = w /\
    (forall (A' : Mat) (w' : World),
        fst (ComputePageRank A' w') = fst (ComputePageRank A w)).
Proof.
  intros A w. repeat split.
Qed.

(** C2, as the program has it: a call of [ComputePageRank] applies no
    multiply, reduces no sum (so no dangling mass) and creates no vector;
    the update formula is computed nowhere. *)
Theorem ComputePageRank_computes_no_vector :
  forall (A : Mat) (w : World),
    iterations (new_events w (snd (ComputePageRank A w))) = 0%nat /\
    reduced_sums (new_events w (snd (ComputePageRank A w))) = [] /\
    new_vecs w (snd (ComputePageRank A w)) = [].
Proof.
  intros A w. rewrite ComputePageRank_eq. cbn [snd].
  rewrite new_events_same, new_vecs_same. repeat split.
Qed.

(** C2 fails as stated: on the loaded sample graph, with alpha = 0.85 and
    the uniform personalization vector, no next vector exists after the
    call, whereas the formula gives one. *)
Lemma next_vector_not_computed :
  ~ Stated.next_vector_computed 0%nat (85 # 100) Sample.uniform4
      (loaded_world []).
Proof.
  intros [next [Hin _]]. vm_compute in Hin. exact Hin.
Qed.



(** C4, as the program has it: [ComputePageRank] always terminates, at
    once: it returns MPI_SUCCESS with no iteration made, no delta reduced
    and nothing reported. *)
Theorem ComputePageRank_returns_at_once :
  forall (A : Mat) (w : World),
    exists w',
      ComputePageRank A w = (Ok tt, w') /\
      iterations (new_events w w') = 0%nat /\
      reduced_sums (new_events w w') = [] /\
      existsb is_print (new_events w w') = false.
Proof.
  intros A w. exists w. rewrite new_events_same. repeat split.
Qed.

(** C4 fails as stated: on the loaded sample graph, with tolerance 1e-10
    and at most 100 iterations, the call ends although no iteration has a
    delta below the tolerance and the iteration count is not exceeded. *)
Lemma terminal_state_not_reached :
  ~ Stated.reaches_terminal_state 0%nat (1 # 10000000000) 100
      (loaded_world []).
Proof.
  intros [[H _] | [H _]]; vm_compute in H; lia.
Qed.



(** ** Stepping through the monad *)

Lemma bind_ok {A B} (m : M A) (f : A -> M B) (w w' : World) (a : A) :
  m w = (Ok a, w') -> bind m f w = f a w'.
Proof. intros H. unfold bind. rewrite H. reflexivity. Qed.

Lemma bind_err {A B} (m : M A) (f : A -> M B) (w w' : World) (e : Z) :
  m w = (Err e, w') -> bind m f w = (Err e, w').
Proof. intros H. unfold bind. rewrite H. reflexivity. Qed.

Lemma lib_status_ok (w : World) :
  nth (w_calls w) (w_err w) 0 = 0 -> lib_status w = (Ok tt, bump w).
Proof. intros H. unfold lib_status. rewrite H. reflexivity. Qed.

Lemma lib_status_err (w : World) :
  nth (w_calls w) (w_err w) 0 <> 0 ->
  lib_status w = (Err (nth (w_calls w) (w_err w) 0), bump w).
Proof.
  intros H. unfold lib_status.
  destruct (Z.eqb_spec (nth (w_calls w) (w_err w) 0) 0); [contradiction | reflexivity].
Qed.

Lemma init_ok (w : World) :
  nth (w_calls w) (w_err w) 0 = 0 ->
  CHKERRQ "main" (PetscInitialize help) w = (Ok tt, initialized w).
Proof.
  intros H. unfold CHKERRQ, PetscInitialize, initialized.
  rewrite (bind_ok _ _ _ _ _ (lib_status_ok w H)).
  unfold bind, emit, has_option. cbn [w_options log bump].
  destruct (lookup "-help" (w_options w)); reflexivity.
Qed.

Lemma initialized_fields (w : World) :
  w_calls (initialized w) = S (w_calls w) /\
  w_err (initialized w) = w_err w /\
  w_options (initialized w) = w_options w.
Proof.
  unfold initialized. destruct (has_option "-help" w); repeat split.
Qed.

Lemma init_err (w : World) :
  nth (w_calls w) (w_err w) 0 <> 0 ->
  CHKERRQ "main" (PetscInitialize help) w =
  (Err (nth (w_calls w) (w_err w) 0),
   log (EError "main" (nth (w_calls w) (w_err w) 0)) (bump w)).
Proof.
  intros H. unfold CHKERRQ, PetscInitialize.
  rewrite (bind_err _ _ _ _ _ (lib_status_err w H)). reflexivity.
Qed.

Lemma getstring_ok (name : string) (len : nat) (w : World) :
  nth (w_calls w) (w_err w) 0 = 0 ->
  CHKERRQ "main" (PetscOptionsGetString name len) w =
  (Ok match lookup name (w_options w) with
      | None => (EmptyString, false)
      | Some v => (filename_of len v, true)
      end, bump w).
Proof.
  intros H. unfold CHKERRQ, PetscOptionsGetString.
  rewrite (bind_ok _ _ _ _ _ (lib_status_ok w H)). cbn [w_options bump].
  destruct (lookup name (w_options w)) as [[v|]|]; reflexivity.
Qed.

Lemma getstring_err (name : string) (len : nat) (w : World) :
  nth (w_calls w) (w_err w) 0 <> 0 ->
  CHKERRQ "main" (PetscOptionsGetString name len) w =
  (Err (nth (w_calls w) (w_err w) 0),
   log (EError "main" (nth (w_calls w) (w_err w) 0)) (bump w)).
Proof.
  intros H. unfold CHKERRQ, PetscOptionsGetString.
  rewrite (bind_err _ _ _ _ _ (lib_status_err w H)). reflexivity.
Qed.

(** ** The paths of [main] *)
Section Paths.

Variable len : nat.
Variable L : MatLoader.
Variable argc : Z.
Variable w : World.

Let code0 := nth (w_calls w) (w_err w) 0.
Let code1 := nth (S (w_calls w)) (w_err w) 0.

Lemma code1_initialized :
  nth (w_calls (initialized w)) (w_err (initialized w)) 0 = code1.
Proof.
  destruct (initialized_fields w) as [Ec [Ee _]]. rewrite Ec, Ee. reflexivity.
Qed.

Lemma main_init_fails :
  code0 <> 0 ->
  main len L argc w = (code0, log (EError "main" code0) (bump w)).
Proof.
  intros H. unfold main, main_body.
  rewrite (bind_err _ _ _ _ _ (init_err w H)). reflexivity.
Qed.

Lemma main_no_argument :
  code0 = 0 -> argc < 2 ->
  main len L argc w =
  (-1, log EFinalize (log (EPrintf help []) (initialized w))).
Proof.
  intros H Ha. unfold main, main_body.
  rewrite (bind_ok _ _ _ _ _ (init_ok w H)).
  apply Z.ltb_lt in Ha. rewrite Ha. reflexivity.
Qed.

Lemma main_lookup_fails :
  code0 = 0 -> 2 <= argc -> code1 <> 0 ->
  main len L argc w =
  (code1, log (EError "main" code1) (started w)).
Proof.
  intros H Ha H1. unfold main, main_body.
  rewrite (bind_ok _ _ _ _ _ (init_ok w H)).
  apply Z.ltb_ge in Ha. rewrite Ha.
  rewrite <- code1_initialized in H1 |- *.
  rewrite (bind_err _ _ _ _ _ (getstring_err "-m" len (initialized w) H1)).
  reflexivity.
Qed.

Lemma main_no_matrix :
  code0 = 0 -> 2 <= argc -> code1 = 0 ->
  lookup "-m" (w_options w) = None ->
  main len L argc w =
  (-1, log EFinalize (log (EPrintf no_matrix_msg []) (started w))).
Proof.
  intros H Ha H1 Hm. unfold main, main_body.
  rewrite (bind_ok _ _ _ _ _ (init_ok w H)).
  apply Z.ltb_ge in Ha. rewrite Ha.
  rewrite <- code1_initialized in H1.
  rewrite (bind_ok _ _ _ _ _ (getstring_ok "-m" len (initialized w) H1)).
  rewrite (proj2 (proj2 (initialized_fields w))), Hm. reflexivity.
Qed.

Lemma main_with_matrix (v : option string) :
  code0 = 0 -> 2 <= argc -> code1 = 0 ->
  lookup "-m" (w_options w) = Some v ->
  main len L argc w =
  match L PETSC_COMM_WORLD (filename_of len v) (header_written w) with
  | ((ierr, A), w2) =>
      if ierr =? 0
      then (0, log EFinalize
                 (snd (WriteSimpleMatrixStats (filename_of len v) A w2)))
      else (ierr, log (EError "main" ierr) w2)
  end.
Proof.
  intros H Ha H1 Hm. unfold main, main_body.
  rewrite (bind_ok _ _ _ _ _ (init_ok w H)).
  apply Z.ltb_ge in Ha. rewrite Ha.
  rewrite <- code1_initialized in H1.
  rewrite (bind_ok _ _ _ _ _ (getstring_ok "-m" len (initialized w) H1)).
  rewrite (proj2 (proj2 (initialized_fields w))), Hm. cbn [negb].
  unfold header_written, started.
  unfold bind at 1. unfold PetscOptionsHasName at 1.
  set (w1 := bump (initialized w)).
  destruct (lookup "-script" (w_options w1)) as [s|].
  - unfold bind, unchecked, CHKERRQ, of_c. cbn [snd].
    destruct (L PETSC_COMM_WORLD (filename_of len v) (snd (WriteHeader w1)))
      as [[ierr A] w2].
    destruct (ierr =? 0); reflexivity.
  - unfold bind, unchecked, CHKERRQ, of_c. cbn [snd].
    destruct (L PETSC_COMM_WORLD (filename_of len v) (snd (WriteHeader w1)))
      as [[ierr A] w2].
    destruct (ierr =? 0); reflexivity.
Qed.

End Paths.

(** ** What the statements of the driver leave alone *)

Lemma frame_refl (w : World) : frame w w.
Proof.
  split; try reflexivity. exists []. rewrite app_nil_r. split; reflexivity.
Qed.

Lemma frame_trans (w1 w2 w3 : World) :
  frame w1 w2 -> frame w2 w3 -> frame w1 w3.
Proof.
  intros [a1 a2 a3 a4 a5 a6 a7 [es1 [E1 Q1]]] [b1 b2 b3 b4 b5 b6 b7 [es2 [E2 Q2]]].
  split; try congruence.
  exists (es1 ++ es2)%list. split.
  - rewrite E2, E1, app_assoc. reflexivity.
  - rewrite forallb_app, Q1, Q2. reflexivity.
Qed.

Lemma frame_log (e : event) (w : World) : quiet e = true -> frame w (log e w).
Proof.
  intros H. split; try reflexivity.
  exists [e]. split; [reflexivity | cbn; rewrite H; reflexivity].
Qed.

Lemma frame_bump (w : World) : frame w (bump w).
Proof.
  split; try reflexivity. exists []. cbn. rewrite app_nil_r. split; reflexivity.
Qed.

Lemma frames_ret {A} (a : A) : frames (ret a).
Proof. intros w. apply frame_refl. Qed.

Lemma frames_bind {A B} (m : M A) (f : A -> M B) :
  frames m -> (forall a, frames (f a)) -> frames (bind m f).
Proof.
  intros Hm Hf w. unfold bind. specialize (Hm w).
  destruct (m w) as [[a | e] w']; cbn [snd] in *.
  - eapply frame_trans; [exact Hm | apply Hf].
  - exact Hm.
Qed.

Lemma frames_CHKERRQ {A} (funct : string) (m : M A) :
  frames m -> frames (CHKERRQ funct m).
Proof.
  intros Hm w. unfold CHKERRQ. specialize (Hm w).
  destruct (m w) as [[a | e] w']; cbn [snd] in *.
  - exact Hm.
  - eapply frame_trans; [exact Hm | apply frame_log; reflexivity].
Qed.

Lemma frames_unchecked (m : M unit) : frames m -> frames (unchecked m).
Proof. intros Hm w. apply Hm. Qed.

Lemma frames_repeatM (n : nat) (m : M unit) : frames m -> frames (repeatM n m).
Proof.
  intros Hm. induction n as [| n IH]; cbn [repeatM].
  - apply frames_ret.
  - apply frames_bind; [exact Hm | intros _; exact IH].
Qed.

Lemma frames_lib_status : frames lib_status.
Proof.
  intros w. unfold lib_status.
  destruct (nth (w_calls w) (w_err w) 0 =? 0); apply frame_bump.
Qed.

Lemma frames_emit (e : event) : quiet e = true -> frames (emit e).
Proof. intros H w. apply frame_log, H. Qed.

Lemma frames_read {A} (g : World -> A) : frames (fun w => (Ok (g w), w)).
Proof. intros w. apply frame_refl. Qed.

Lemma frames_PetscPrintf (comm : MPI_Comm) (fmt : string) (args : list arg) :
  frames (PetscPrintf comm fmt args).
Proof. apply frames_emit. reflexivity. Qed.

Lemma frames_PetscSynchronizedPrintf (comm : MPI_Comm) (fmt : string)
  (args : PerProc (list arg)) :
  frames (PetscSynchronizedPrintf comm fmt args).
Proof.
  intros w. unfold PetscSynchronizedPrintf. cbn [snd].
  generalize 0 as r. revert w.
  induction args as [| a args IH]; intros w r; cbn [sync_events fold_left].
  - apply frame_refl.
  - eapply frame_trans;
      [apply (frame_log (ESynchronizedPrintf r fmt a)); reflexivity | apply IH].
Qed.

Lemma frames_MPI_Reduce (v : PerProc Z) (op : MPI_Op) (comm : MPI_Comm) :
  frames (MPI_Reduce v op comm).
Proof.
  unfold MPI_Reduce.
  apply frames_bind; [apply frames_lib_status | intros _].
  apply frames_bind; [apply frames_emit; reflexivity | intros _].
  apply frames_ret.
Qed.

Ltac frames_step :=
  lazymatch goal with
  | |- frames (bind _ _) => apply frames_bind; [ | intros ? ]
  | |- frames (ret _) => apply frames_ret
  | |- frames (PetscPrintf _ _ _) => apply frames_PetscPrintf
  | |- frames (PetscSynchronizedPrintf _ _ _) =>
      apply frames_PetscSynchronizedPrintf
  | |- frames (repeatM _ _) => apply frames_repeatM
  | |- frames (CHKERRQ _ _) => apply frames_CHKERRQ
  | |- frames (MPI_Reduce _ _ _) => apply frames_MPI_Reduce
  | |- frames lib_status => apply frames_lib_status
  | |- frames (emit _) => apply frames_emit; reflexivity
  | |- frames (fun w => (Ok _, w)) => apply frames_read
  | |- frames (let (_, _) := ?p in _) => destruct p
  end.

Lemma frames_WriteHeader : frames WriteHeader.
Proof.
  unfold WriteHeader, MPI_Comm_size, MPI_Comm_rank, MPI_Barrier,
    MPI_Get_processor_name, PetscSynchronizedFlush.
  repeat frames_step.
Qed.

Lemma frames_WriteSimpleMatrixStats (filename : string) (A : Mat) :
  frames (WriteSimpleMatrixStats filename A).
Proof.
  unfold WriteSimpleMatrixStats, PetscObjectGetComm, MatGetSize,
    MatGetLocalSize, MatGetNonzeroCount.
  repeat frames_step.
Qed.

Lemma frame_no_iteration (w w' : World) :
  frame w w' -> iterations (new_events w w') = 0%nat.
Proof.
  intros [_ _ _ _ _ _ _ [es [E Q]]]. unfold new_events, iterations.
  rewrite E, skipn_app, skipn_all, Nat.sub_diag. cbn [skipn app].
  clear E. induction es as [| e es IH]; [reflexivity | ].
  cbn [forallb] in Q. apply andb_true_iff in Q as [Qe Qs].
  cbn [filter]. destruct e; cbn in Qe |- *; try discriminate; auto.
Qed.

(** ** The driver: [main] *)

Lemma trace_log (e : event) (w : World) :
  w_trace (log e w) = (w_trace w ++ [e])%list.
Proof. reflexivity. Qed.

(** C1, as the program has it: in every run in which the matrix file is
    loaded, [main] calls [WriteSimpleMatrixStats] on the matrix, whatever
    code that call returns, then finalizes and returns 0; between the load
    and the exit it creates no vector and no matrix and applies no
    multiply: the engine is not run. *)
Theorem main_after_load :
  forall (len : nat) (L : MatLoader) (argc : Z) (w : World)
         (v : option string) (A : Mat) (w2 : World),
    2 <= argc ->
    nth (w_calls w) (w_err w) 0 = 0 ->
    nth (S (w_calls w)) (w_err w) 0 = 0 ->
    lookup "-m" (w_options w) = Some v ->
    L PETSC_COMM_WORLD (filename_of len v) (header_written w)
      = ((MPI_SUCCESS, A), w2) ->
    main len L argc w
      = (0, log EFinalize
              (snd (WriteSimpleMatrixStats (filename_of len v) A w2))) /\
    w_vecs (snd (main len L argc w)) = w_vecs w2 /\
    w_mats (snd (main len L argc w)) = w_mats w2 /\
    iterations (new_events w2 (snd (main len L argc w))) = 0%nat.
Proof.
  intros len L argc w v A w2 Ha H0 H1 Hm HL.
  rewrite (main_with_matrix len L argc w v H0 Ha H1 Hm), HL.
  cbn [MPI_SUCCESS Z.eqb fst snd].
  assert (F : frame w2 (log EFinalize
                 (snd (WriteSimpleMatrixStats (filename_of len v) A w2)))).
  { eapply frame_trans; [apply frames_WriteSimpleMatrixStats | ].
    apply frame_log. reflexivity. }
  split; [reflexivity | ]. split; [apply (fr_vecs _ _ F) | ].
  split; [apply (fr_mats _ _ F) | apply frame_no_iteration, F].
Qed.

(** The run ppagerank -m cycle.bsmat is such a run. *)
Lemma main_after_load_witness :
  lookup "-m" (w_options Sample.with_matrix) = Some (Some "cycle.bsmat") /\
  fst (ppagerank 3 Sample.with_matrix) = 0 /\
  w_vecs (snd (ppagerank 3 Sample.with_matrix)) = [].
Proof.
  split; [reflexivity | ].
  destruct (main_after_load 4096 Loader.MatLoadBSMAT 3 Sample.with_matrix
              (Some "cycle.bsmat") 0%nat
              (snd (Loader.MatLoadBSMAT PETSC_COMM_WORLD "cycle.bsmat"
                      (header_written Sample.with_matrix))))
    as [E [V _]];
    [lia | reflexivity | reflexivity | reflexivity | vm_compute; reflexivity | ].
  unfold ppagerank. split; [rewrite E; reflexivity | rewrite V; vm_compute; reflexivity].
Defined.

(** C1 fails as stated: the run ppagerank -m cycle.bsmat loads the matrix
    and returns 0, and no PageRank vector exists when it ends. *)
Lemma no_pagerank_after_load :
  ~ Stated.computes_pagerank_after_load 3 Sample.with_matrix.
Proof.
  intros H.
  assert (E : exists d, new_mats Sample.with_matrix
                          (snd (ppagerank 3 Sample.with_matrix)) = [d])
    by (eexists; vm_compute; reflexivity).
  destruct E as [d E]. destruct (H d E) as [_ [v [Hin _]]].
  vm_compute in Hin. exact Hin.
Qed.

(** C5, as the program has it: when the -m option is absent, [main]
    returns a nonzero code, and what it does is the same for every loader,
    so nothing is loaded; when
    moreover the library calls succeed, it returns -1 having printed, after
    the initialization and before the finalization, the help text (no
    argument at all) or the message that no matrix file is specified, and
    nothing else.
    And [main] returns 0 only in a run in which the -m option is present
    and the loader has returned MPI_SUCCESS; no more is required of such a
    run. *)
Theorem main_requires_matrix_option :
  forall (len : nat) (L : MatLoader) (argc : Z) (w : World),
    (lookup "-m" (w_options w) = None ->
     fst (main len L argc w) <> 0 /\
     (forall L', main len L' argc w = main len L argc w) /\
     (nth (w_calls w) (w_err w) 0 = 0 ->
      argc < 2 \/ nth (S (w_calls w)) (w_err w) 0 = 0 ->
      fst (main len L argc w) = -1 /\
      w_trace (snd (main len L argc w))
        = (w_trace (initialized w)
             ++ [EPrintf (if argc <? 2 then help else no_matrix_msg) [];
                 EFinalize])%list)) /\
    (fst (main len L argc w) = 0 ->
     2 <= argc /\
     exists v A w2,
       lookup "-m" (w_options w) = Some v /\
       L PETSC_COMM_WORLD (filename_of len v) (header_written w)
         = ((MPI_SUCCESS, A), w2)).
Proof.
  intros len L argc w.
  destruct (Z.eq_dec (nth (w_calls w) (w_err w) 0) 0) as [H0 | H0].
  2:{ split.
      - intros _. rewrite (main_init_fails len L argc w H0).
        split; [exact H0 | ]. split.
        + intros L'. rewrite (main_init_fails len L' argc w H0). reflexivity.
        + intros E. contradiction.
      - rewrite (main_init_fails len L argc w H0). cbn [fst]. contradiction. }
  destruct (Z_lt_ge_dec argc 2) as [Ha | Ha].
  { split.
    - intros _. rewrite (main_no_argument len L argc w H0 Ha).
      split; [discriminate | ]. split.
      + intros L'. rewrite (main_no_argument len L' argc w H0 Ha). reflexivity.
      + intros _ _. split; [reflexivity | ].
        apply Z.ltb_lt in Ha. rewrite Ha. cbn [snd].
        rewrite !trace_log, <- !app_assoc. reflexivity.
    - rewrite (main_no_argument len L argc w H0 Ha). discriminate. }
  apply Z.ge_le in Ha.
  destruct (Z.eq_dec (nth (S (w_calls w)) (w_err w) 0) 0) as [H1 | H1].
  2:{ split.
      - intros _. rewrite (main_lookup_fails len L argc w H0 Ha H1).
        split; [exact H1 | ]. split.
        + intros L'. rewrite (main_lookup_fails len L' argc w H0 Ha H1).
          reflexivity.
        + intros _ [Hlt | E]; [lia | contradiction].
      - rewrite (main_lookup_fails len L argc w H0 Ha H1). cbn [fst].
        contradiction. }
  destruct (lookup "-m" (w_options w)) as [v |] eqn:Hm.
  - split; [discriminate | ].
    rewrite (main_with_matrix len L argc w v H0 Ha H1 Hm).
    destruct (L PETSC_COMM_WORLD (filename_of len v) (header_written w))
      as [[ierr A] w2] eqn:HL.
    destruct (Z.eqb_spec ierr 0) as [E | E]; cbn [fst].
    + intros _. split; [exact Ha | ]. exists v, A, w2.
      split; [reflexivity | ]. subst ierr. exact HL.
    + contradiction.
  - split.
    + intros _. rewrite (main_no_matrix len L argc w H0 Ha H1 Hm).
      split; [discriminate | ]. split.
      * intros L'. rewrite (main_no_matrix len L' argc w H0 Ha H1 Hm).
        reflexivity.
      * intros _ _. split; [reflexivity | ].
        apply Z.ltb_ge in Ha. rewrite Ha. unfold started. cbn [snd].
        rewrite !trace_log, <- !app_assoc. reflexivity.
    + rewrite (main_no_matrix len L argc w H0 Ha H1 Hm). discriminate.
Qed.

(** C5 fails as stated: in the run ppagerank -m cycle.bsmat in which the
    second reduction of the statistics returns the code 7, that error is
    reported and [main] returns 0. *)
Lemma zero_exit_after_an_error :
  ~ Stated.exits_zero_only_on_success 3 Sample.flaky_stats.
Proof.
  intros [_ H].
  assert (E : existsb is_error
                (new_events Sample.flaky_stats
                   (snd (ppagerank 3 Sample.flaky_stats))) = false)
    by (apply H; vm_compute; reflexivity).
  vm_compute in E. discriminate E.
Qed.

(** The runs ppagerank -alpha 0.85 and ppagerank -m cycle.bsmat. *)
Lemma main_requires_matrix_option_witness :
  lookup "-m" (w_options Sample.without_matrix) = None /\
  fst (ppagerank 3 Sample.without_matrix) <> 0 /\
  fst (ppagerank 3 Sample.with_matrix) = 0 /\
  lookup "-m" (w_options Sample.with_matrix) <> None.
Proof.
  unfold ppagerank. split; [reflexivity | ]. split.
  - exact (proj1 (proj1 (main_requires_matrix_option 4096
                           Loader.MatLoadBSMAT 3 Sample.without_matrix)
                    eq_refl)).
  - assert (E : fst (main 4096 Loader.MatLoadBSMAT 3 Sample.with_matrix) = 0)
      by (vm_compute; reflexivity).
    split; [exact E | ].
    pose proof (proj2 (main_requires_matrix_option 4096 Loader.MatLoadBSMAT 3
                         Sample.with_matrix) E) as H.
    destruct H as [_ [v [A [w2 [Hv _]]]]].
    rewrite Hv. discriminate.
Defined.

(** ** Options that are not consulted *)
Section Respects.

Variable ks : list string.

Lemma agree_log (e : event) (w1 w2 : World) :
  agree ks w1 w2 -> agree ks (log e w1) (log e w2).
Proof.
  intros [a1 a2 a3 a4 a5 a6 a7 a8 a9]. split; cbn; congruence || assumption.
Qed.

Lemma agree_bump (w1 w2 : World) :
  agree ks w1 w2 -> agree ks (bump w1) (bump w2).
Proof.
  intros [a1 a2 a3 a4 a5 a6 a7 a8 a9]. split; cbn; congruence || assumption.
Qed.

Lemma agree_add_mat (d : MatData) (w1 w2 : World) :
  agree ks w1 w2 -> agree ks (add_mat d w1) (add_mat d w2).
Proof.
  intros [a1 a2 a3 a4 a5 a6 a7 a8 a9]. split; cbn; congruence || assumption.
Qed.

Lemma respects_ret {A} (a : A) : respects ks (ret a).
Proof. intros w1 w2 Ag. split; [reflexivity | exact Ag]. Qed.

Lemma respects_bind {A B} (m : M A) (f : A -> M B) :
  respects ks m -> (forall a, respects ks (f a)) -> respects ks (bind m f).
Proof.
  intros Hm Hf w1 w2 Ag. destruct (Hm w1 w2 Ag) as [E Ag'].
  unfold sim, bind in *.
  destruct (m w1) as [r1 w1'], (m w2) as [r2 w2']; cbn [fst snd] in *.
  subst r2. destruct r1 as [a | e].
  - apply Hf, Ag'.
  - split; [reflexivity | exact Ag'].
Qed.

Lemma respects_CHKERRQ {A} (funct : string) (m : M A) :
  respects ks m -> respects ks (CHKERRQ funct m).
Proof.
  intros Hm w1 w2 Ag. destruct (Hm w1 w2 Ag) as [E Ag'].
  unfold sim, CHKERRQ in *.
  destruct (m w1) as [r1 w1'], (m w2) as [r2 w2']; cbn [fst snd] in *.
  subst r2. destruct r1 as [a | e]; cbn [fst snd].
  - split; [reflexivity | exact Ag'].
  - split; [reflexivity | apply agree_log, Ag'].
Qed.

Lemma respects_unchecked (m : M unit) :
  respects ks m -> respects ks (unchecked m).
Proof.
  intros Hm w1 w2 Ag. destruct (Hm w1 w2 Ag) as [_ Ag'].
  split; [reflexivity | exact Ag'].
Qed.

Lemma respects_repeatM (n : nat) (m : M unit) :
  respects ks m -> respects ks (repeatM n m).
Proof.
  intros Hm. induction n as [| n IH]; cbn [repeatM].
  - apply respects_ret.
  - apply respects_bind; [exact Hm | intros _; exact IH].
Qed.

Lemma respects_lib_status : respects ks lib_status.
Proof.
  intros w1 w2 Ag. unfold sim, lib_status.
  rewrite (ag_err _ _ _ Ag), (ag_calls _ _ _ Ag).
  destruct (nth (w_calls w2) (w_err w2) 0 =? 0); cbn [fst snd];
    (split; [reflexivity | apply agree_bump, Ag]).
Qed.

Lemma respects_emit (e : event) : respects ks (emit e).
Proof. intros w1 w2 Ag. split; [reflexivity | apply agree_log, Ag]. Qed.

(** Reading what the two worlds share. *)
Lemma respects_read {A} (g : World -> A) :
  (forall w1 w2, agree ks w1 w2 -> g w1 = g w2) ->
  respects ks (fun w => (Ok (g w), w)).
Proof.
  intros Hg w1 w2 Ag. unfold sim. cbn [fst snd].
  rewrite (Hg w1 w2 Ag). split; [reflexivity | exact Ag].
Qed.

Lemma respects_PetscSynchronizedPrintf (comm : MPI_Comm) (fmt : string)
  (args : PerProc (list arg)) :
  respects ks (PetscSynchronizedPrintf comm fmt args).
Proof.
  intros w1 w2 Ag. unfold sim, PetscSynchronizedPrintf. cbn [fst snd].
  split; [reflexivity | ].
  generalize 0 as r. revert w1 w2 Ag.
  induction args as [| a args IH]; intros w1 w2 Ag r;
    cbn [sync_events fold_left].
  - exact Ag.
  - apply IH, agree_log, Ag.
Qed.

Lemma respects_PetscOptionsGetString (name : string) (len : nat) :
  ~ In name ks -> respects ks (PetscOptionsGetString name len).
Proof.
  intros Hn. unfold PetscOptionsGetString.
  apply respects_bind; [apply respects_lib_status | intros _].
  intros w1 w2 Ag. unfold sim. rewrite (ag_options _ _ _ Ag name Hn).
  destruct (lookup name (w_options w2)) as [[v |] |]; cbn [fst snd];
    (split; [reflexivity | exact Ag]).
Qed.

Lemma respects_PetscOptionsHasName (name : string) :
  ~ In name ks -> respects ks (PetscOptionsHasName name).
Proof.
  intros Hn w1 w2 Ag. unfold sim, PetscOptionsHasName.
  rewrite (ag_options _ _ _ Ag name Hn).
  destruct (lookup name (w_options w2)); cbn [fst snd];
    (split; [reflexivity | exact Ag]).
Qed.

Lemma respects_MPI_Reduce (v : PerProc Z) (op : MPI_Op) (comm : MPI_Comm) :
  respects ks (MPI_Reduce v op comm).
Proof.
  unfold MPI_Reduce.
  apply respects_bind; [apply respects_lib_status | intros _].
  apply respects_bind; [apply respects_emit | intros _].
  apply respects_ret.
Qed.

Lemma respects_of_c {A} (f : World -> (PetscErrorCode * A) * World) :
  (forall w1 w2, agree ks w1 w2 ->
                 fst (f w1) = fst (f w2) /\ agree ks (snd (f w1)) (snd (f w2))) ->
  respects ks (of_c f).
Proof.
  intros Hf w1 w2 Ag. destruct (Hf w1 w2 Ag) as [E Ag'].
  unfold sim, of_c.
  destruct (f w1) as [[i1 a1] w1'], (f w2) as [[i2 a2] w2'];
    cbn [fst snd] in *.
  injection E as -> ->.
  destruct (i2 =? 0); cbn [fst snd]; (split; [reflexivity | exact Ag']).
Qed.

Ltac respects_step :=
  lazymatch goal with
  | |- respects _ (bind _ _) => apply respects_bind; [ | intros ? ]
  | |- respects _ (ret _) => apply respects_ret
  | |- respects _ (PetscPrintf _ _ _) => apply respects_emit
  | |- respects _ (PetscSynchronizedPrintf _ _ _) =>
      apply respects_PetscSynchronizedPrintf
  | |- respects _ (repeatM _ _) => apply respects_repeatM
  | |- respects _ (CHKERRQ _ _) => apply respects_CHKERRQ
  | |- respects _ (unchecked _) => apply respects_unchecked
  | |- respects _ (MPI_Reduce _ _ _) => apply respects_MPI_Reduce
  | |- respects _ lib_status => apply respects_lib_status
  | |- respects _ (emit _) => apply respects_emit
  | |- respects _ (let (_, _) := ?p in _) => destruct p
  | |- respects _ (if ?b then _ else _) => destruct b
  | |- respects _ (fun w => (Ok _, w)) =>
      let Ag := fresh "Ag" in
      apply respects_read; intros ? ? Ag; cbv beta; unfold mat_data;
      rewrite ?(ag_size _ _ _ Ag), ?(ag_names _ _ _ Ag),
        ?(ag_mats _ _ _ Ag);
      reflexivity
  end.

Lemma respects_WriteHeader : respects ks WriteHeader.
Proof.
  unfold WriteHeader, MPI_Comm_size, MPI_Comm_rank, MPI_Barrier,
    MPI_Get_processor_name, PetscSynchronizedFlush.
  repeat respects_step.
Qed.

Lemma respects_WriteSimpleMatrixStats (filename : string) (A : Mat) :
  respects ks (WriteSimpleMatrixStats filename A).
Proof.
  unfold WriteSimpleMatrixStats, PetscObjectGetComm, MatGetSize,
    MatGetLocalSize, MatGetNonzeroCount.
  repeat respects_step.
Qed.

Variable len : nat.
Variable L : MatLoader.

Hypothesis ks_m : ~ In "-m" ks.
Hypothesis ks_script : ~ In "-script" ks.
Hypothesis ks_help : ~ In "-help" ks.
Hypothesis L_ignores : loader_ignores ks L.

Lemma respects_main_body (argc : Z) : respects ks (main_body len L argc).
Proof.
  assert (Hh : respects ks (fun w => (Ok tt, if has_option "-help" w
                                             then log (EPrintf help []) w
                                             else w))).
  { intros w1 w2 Ag. unfold sim, has_option. cbn [fst snd].
    rewrite (ag_options _ _ _ Ag "-help" ks_help).
    split; [reflexivity | ].
    destruct (lookup "-help" (w_options w2)); [apply agree_log | ]; exact Ag. }
  unfold main_body, PetscInitialize, PetscFinalize.
  repeat lazymatch goal with
    | |- respects _ (fun w => (Ok tt, if has_option _ w then _ else _)) =>
        exact Hh
    | |- respects _ WriteHeader => apply respects_WriteHeader
    | |- respects _ (WriteSimpleMatrixStats _ _) =>
        apply respects_WriteSimpleMatrixStats
    | |- respects _ (PetscOptionsGetString _ _) =>
        apply respects_PetscOptionsGetString; exact ks_m
    | |- respects _ (PetscOptionsHasName _) =>
        apply respects_PetscOptionsHasName; exact ks_script
    | |- respects _ (of_c _) => apply respects_of_c; apply L_ignores
    | |- _ => respects_step
    end.
Qed.

(** Two runs from worlds that differ in the options of [ks] only, with
    an argument on both command lines or on neither, return the same
    code and leave the same trace. *)
Lemma main_respects (argc1 argc2 : Z) (w1 w2 : World) :
  (argc1 < 2 <-> argc2 < 2) ->
  agree ks w1 w2 ->
  fst (main len L argc1 w1) = fst (main len L argc2 w2) /\
  agree ks (snd (main len L argc1 w1)) (snd (main len L argc2 w2)).
Proof.
  intros Ha Ag.
  assert (E : main_body len L argc1 = main_body len L argc2).
  { unfold main_body.
    destruct (Z.ltb_spec argc1 2), (Z.ltb_spec argc2 2);
      try reflexivity; lia. }
  destruct (respects_main_body argc2 w1 w2 Ag) as [Er Ag'].
  unfold main. rewrite E.
  destruct (main_body len L argc2 w1) as [r1 w1'],
           (main_body len L argc2 w2) as [r2 w2']; cbn [fst snd] in *.
  subst r2. destruct r1; cbn [fst snd]; (split; [reflexivity | exact Ag']).
Qed.

End Respects.

(** ** The loader of the spec and the options *)

Lemma loader_option_agree (ks : list string) (name : string) (w1 w2 : World) :
  ~ In name ks -> agree ks w1 w2 ->
  has_option name w1 = has_option name w2 /\
  forall d, Loader.int_option name d w1 = Loader.int_option name d w2.
Proof.
  intros Hn Ag. unfold has_option, Loader.int_option.
  rewrite (ag_options _ _ _ Ag name Hn). split; reflexivity.
Qed.

(** The loader consults -matload_redistribute and the two weights, and no
    other option. *)
Lemma spec_loader_ignores (ks : list string) :
  ~ In "-matload_redistribute" ks ->
  ~ In "-matload_redistribute_wrows" ks ->
  ~ In "-matload_redistribute_wnnz" ks ->
  loader_ignores ks Loader.MatLoadBSMAT.
Proof.
  intros H1 H2 H3 f w1 w2 Ag. unfold Loader.MatLoadBSMAT, Loader.fail.
  destruct (loader_option_agree ks _ w1 w2 H1 Ag) as [E1 _].
  destruct (loader_option_agree ks _ w1 w2 H2 Ag) as [_ E2].
  destruct (loader_option_agree ks _ w1 w2 H3 Ag) as [_ E3].
  rewrite E1, E2, E3, (ag_files _ _ _ Ag), (ag_size _ _ _ Ag),
    (ag_mats _ _ _ Ag).
  destruct (lookup f (w_files w2)) as [[b | v] |]; cbn [fst snd];
    try (split; [reflexivity | apply agree_log, Ag]).
  repeat match goal with
         | |- context [if ?c then _ else _] =>
             destruct c; cbn [fst snd];
             try (split; [reflexivity | apply agree_log, Ag])
         end;
    (split; [reflexivity | apply agree_add_mat, Ag]).
Qed.

Lemma lookup_other {A} (k k' : string) (v : A) (l : list (string * A)) :
  k <> k' -> lookup k ((k', v) :: l) = lookup k l.
Proof.
  intros H. cbn [lookup]. destruct (String.eqb_spec k k'); [contradiction | reflexivity].
Qed.

Lemma agree_set_option (k : string) (v : option string) (w : World) :
  agree [k] (set_option k v w) w.
Proof.
  split; try reflexivity.
  intros k' Hk. cbn [set_option w_options]. apply lookup_other.
  intros E. apply Hk. left. symmetry. exact E.
Qed.

(** ** The personalization vector *)

(** C6, as the program has it: [main] never asks for -pvec and never reads
    the vector; for every loader that does not consult -pvec, a run in
    which -pvec is given, whatever file it names and whatever the entries of
    that file sum to, returns the code and leaves the trace of the run
    without it (both command lines having an argument, or neither). *)
Theorem main_ignores_pvec :
  forall (len : nat) (L : MatLoader) (argc argc' : Z) (w : World)
         (pvec : option string),
    loader_ignores ["-pvec"] L ->
    (argc' < 2 <-> argc < 2) ->
    fst (main len L argc' (set_option "-pvec" pvec w))
      = fst (main len L argc w) /\
    w_trace (snd (main len L argc' (set_option "-pvec" pvec w)))
      = w_trace (snd (main len L argc w)) /\
    w_vecs (snd (main len L argc' (set_option "-pvec" pvec w)))
      = w_vecs (snd (main len L argc w)).
Proof.
  intros len L argc argc' w pvec HL Ha.
  destruct (main_respects ["-pvec"] len L) with
    (argc1 := argc') (argc2 := argc)
    (w1 := set_option "-pvec" pvec w) (w2 := w) as [E Ag].
  - cbn. intros [H | []]. discriminate H.
  - cbn. intros [H | []]. discriminate H.
  - cbn. intros [H | []]. discriminate H.
  - exact HL.
  - exact Ha.
  - apply agree_set_option.
  - split; [exact E | ].
    split; [apply (ag_trace _ _ _ Ag) | apply (ag_vecs _ _ _ Ag)].
Qed.

(** The run ppagerank -m cycle.bsmat, with and without -pvec heavy.vec. *)
Lemma main_ignores_pvec_witness :
  fst (ppagerank 5 (set_option "-pvec" (Some "heavy.vec") Sample.with_matrix))
    = fst (ppagerank 3 Sample.with_matrix) /\
  w_trace (snd (ppagerank 5 (set_option "-pvec" (Some "heavy.vec")
                               Sample.with_matrix)))
    = w_trace (snd (ppagerank 3 Sample.with_matrix)).
Proof.
  unfold ppagerank.
  destruct (main_ignores_pvec 4096 Loader.MatLoadBSMAT 3 5 Sample.with_matrix
              (Some "heavy.vec")) as [E [T _]].
  - apply spec_loader_ignores; cbn; intros [H | []]; discriminate H.
  - lia.
  - split; [exact E | exact T].
Defined.

(** C6 fails as stated: in the run ppagerank -m cycle.bsmat -pvec heavy.vec
    the entries of the vector sum to 2, and the run loads the matrix and
    returns 0. *)
Lemma heavy_vector_is_accepted :
  ~ Stated.validates_personalization (1 # 1000000) 5 Sample.with_heavy_pvec.
Proof.
  intros H.
  destruct (H "heavy.vec" Sample.heavy4 eq_refl eq_refl) as [Hne _].
  - vm_compute. intros Hle. apply Hle. reflexivity.
  - apply Hne. vm_compute. reflexivity.
Qed.

(** ** The advertised options *)





(** * Further properties of the driver *)

(** ** Stepping through the diagnostics *)

Lemma logs_fields (es : list event) (w : World) :
  w_options (logs es w) = w_options w /\
  w_files (logs es w) = w_files w /\
  w_size (logs es w) = w_size w /\
  w_names (logs es w) = w_names w /\
  w_mats (logs es w) = w_mats w /\
  w_vecs (logs es w) = w_vecs w /\
  w_err (logs es w) = w_err w /\
  w_calls (logs es w) = w_calls w /\
  w_trace (logs es w) = (w_trace w ++ es)%list.
Proof.
  revert w. induction es as [| e es IH]; intros w; cbn [logs fold_left].
  - rewrite app_nil_r. repeat split.
  - destruct (IH (log e w)) as (a1 & a2 & a3 & a4 & a5 & a6 & a7 & a8 & a9).
    unfold logs in *. rewrite a1, a2, a3, a4, a5, a6, a7, a8, a9.
    cbn [log w_options w_files w_size w_names w_mats w_vecs w_err w_calls w_trace].
    rewrite <- app_assoc. repeat split.
Qed.

Lemma calls_logs es w : w_calls (logs es w) = w_calls w.
Proof. apply logs_fields. Qed.
Lemma err_logs es w : w_err (logs es w) = w_err w.
Proof. apply logs_fields. Qed.
Lemma size_logs es w : w_size (logs es w) = w_size w.
Proof. apply logs_fields. Qed.
Lemma names_logs es w : w_names (logs es w) = w_names w.
Proof. apply logs_fields. Qed.
Lemma trace_logs es w : w_trace (logs es w) = (w_trace w ++ es)%list.
Proof. apply logs_fields. Qed.

Lemma calls_log e w : w_calls (log e w) = w_calls w.
Proof. reflexivity. Qed.
Lemma calls_bump w : w_calls (bump w) = S (w_calls w).
Proof. reflexivity. Qed.
Lemma err_log e w : w_err (log e w) = w_err w.
Proof. reflexivity. Qed.
Lemma err_bump w : w_err (bump w) = w_err w.
Proof. reflexivity. Qed.
Lemma size_log e w : w_size (log e w) = w_size w.
Proof. reflexivity. Qed.
Lemma size_bump w : w_size (bump w) = w_size w.
Proof. reflexivity. Qed.
Lemma names_log e w : w_names (log e w) = w_names w.
Proof. reflexivity. Qed.
Lemma names_bump w : w_names (bump w) = w_names w.
Proof. reflexivity. Qed.
Lemma mats_log e w : w_mats (log e w) = w_mats w.
Proof. reflexivity. Qed.
Lemma mats_bump w : w_mats (bump w) = w_mats w.
Proof. reflexivity. Qed.
Lemma trace_bump w : w_trace (bump w) = w_trace w.
Proof. reflexivity. Qed.

Ltac world_simpl :=
  repeat first
    [ rewrite calls_log | rewrite calls_bump | rewrite calls_logs
    | rewrite err_log | rewrite err_bump | rewrite err_logs
    | rewrite size_log | rewrite size_bump | rewrite size_logs
    | rewrite names_log | rewrite names_bump | rewrite names_logs
    | rewrite mats_log | rewrite mats_bump ].

Lemma bind_print {B} comm fmt args (k : unit -> M B) w :
  bind (PetscPrintf comm fmt args) k w = k tt (log (EPrintf fmt args) w).
Proof. reflexivity. Qed.

Lemma bind_rule {B} n comm fmt args (k : unit -> M B) w :
  bind (repeatM n (PetscPrintf comm fmt args)) k w
  = k tt (logs (List.repeat (EPrintf fmt args) n) w).
Proof.
  revert w. induction n as [| n IH]; intros w; [reflexivity | ].
  cbn [repeatM List.repeat logs fold_left]. unfold bind at 1 2.
  cbn [PetscPrintf emit]. specialize (IH (log (EPrintf fmt args) w)).
  unfold bind at 1 in IH. exact IH.
Qed.

Lemma bind_checked_ok {A B} funct (m : unit -> M A) (k : A -> M B) w :
  nth (w_calls w) (w_err w) 0 = 0 ->
  bind (CHKERRQ funct (bind lib_status m)) k w
  = bind (CHKERRQ funct (m tt)) k (bump w).
Proof.
  intros H. unfold bind, CHKERRQ, lib_status. rewrite H. reflexivity.
Qed.

Lemma bind_checked_err {A B} funct (m : unit -> M A) (k : A -> M B) w :
  nth (w_calls w) (w_err w) 0 <> 0 ->
  bind (CHKERRQ funct (bind lib_status m)) k w
  = (Err (nth (w_calls w) (w_err w) 0),
     log (EError funct (nth (w_calls w) (w_err w) 0)) (bump w)).
Proof.
  intros H. unfold bind, CHKERRQ, lib_status.
  destruct (Z.eqb_spec (nth (w_calls w) (w_err w) 0) 0); [contradiction | reflexivity].
Qed.

Lemma sync_events_ranks (fmt : string) (names : list string) (n s : nat) :
  sync_events (Z.of_nat s) fmt
    (map (fun rn => [AInt (fst rn); AStr (snd rn)])
         (combine (map Z.of_nat (seq s n))
                  (map (fun r => nth r names EmptyString) (seq s n))))
  = map (fun r => ESynchronizedPrintf (Z.of_nat r) fmt
                    [AInt (Z.of_nat r); AStr (nth r names EmptyString)])
        (seq s n).
Proof.
  revert s. induction n as [| n IH]; intros s; [reflexivity | ].
  cbn [seq map combine sync_events fst snd]. f_equal.
  replace (Z.of_nat s + 1) with (Z.of_nat (S s)) by lia. apply IH.
Qed.

(** After the banner, the rest of [WriteHeader]. *)
Lemma WriteHeader_banner (w : World) :
  WriteHeader w =
  (size <- CHKERRQ "WriteHeader" (MPI_Comm_size PETSC_COMM_WORLD) ;;
   rank <- CHKERRQ "WriteHeader" (MPI_Comm_rank PETSC_COMM_WORLD) ;;
   name <- MPI_Get_processor_name ;;
   PetscPrintf PETSC_COMM_WORLD ("nprocs = %i" ++ nl) [AInt size] ;;
   PetscSynchronizedPrintf PETSC_COMM_WORLD ("[%3i] %s running..." ++ nl)
     (map (fun rn => [AInt (fst rn); AStr (snd rn)]) (combine rank name)) ;;
   PetscSynchronizedFlush PETSC_COMM_WORLD ;;
   CHKERRQ "WriteHeader" (MPI_Barrier PETSC_COMM_WORLD) ;;
   ret tt) (logs banner w).
Proof.
  unfold WriteHeader.
  rewrite bind_rule, !bind_print, bind_rule, bind_print.
  unfold banner, rule, logs. rewrite !fold_left_app. reflexivity.
Qed.

Lemma bind_size_ok {B} funct comm (k : Z -> M B) w :
  nth (w_calls w) (w_err w) 0 = 0 ->
  bind (CHKERRQ funct (MPI_Comm_size comm)) k w = k (Z.of_nat (w_size w)) (bump w).
Proof.
  intros H. unfold MPI_Comm_size. rewrite bind_checked_ok by exact H. reflexivity.
Qed.

Lemma bind_rank_ok {B} funct comm (k : PerProc Z -> M B) w :
  nth (w_calls w) (w_err w) 0 = 0 ->
  bind (CHKERRQ funct (MPI_Comm_rank comm)) k w
  = k (map Z.of_nat (seq 0 (w_size w))) (bump w).
Proof.
  intros H. unfold MPI_Comm_rank. rewrite bind_checked_ok by exact H. reflexivity.
Qed.

Lemma bind_barrier_ok {B} funct comm (k : unit -> M B) w :
  nth (w_calls w) (w_err w) 0 = 0 ->
  bind (CHKERRQ funct (MPI_Barrier comm)) k w = k tt (log EBarrier (bump w)).
Proof.
  intros H. unfold MPI_Barrier. rewrite bind_checked_ok by exact H. reflexivity.
Qed.

Lemma bind_reduce_ok {B} funct v op comm (k : Z -> M B) w :
  nth (w_calls w) (w_err w) 0 = 0 ->
  bind (CHKERRQ funct (MPI_Reduce v op comm)) k w
  = k (reduce op v) (log (EReduce op (reduce op v)) (bump w)).
Proof.
  intros H. unfold MPI_Reduce. rewrite bind_checked_ok by exact H. reflexivity.
Qed.

Lemma bind_names {B} (k : PerProc string -> M B) w :
  bind MPI_Get_processor_name k w
  = k (map (fun r => nth r (w_names w) EmptyString) (seq 0 (w_size w))) w.
Proof. reflexivity. Qed.

Lemma bind_sync {B} comm fmt args (k : unit -> M B) w :
  bind (PetscSynchronizedPrintf comm fmt args) k w
  = k tt (logs (sync_events 0 fmt args) w).
Proof. reflexivity. Qed.

Lemma bind_flush {B} comm (k : unit -> M B) w :
  bind (PetscSynchronizedFlush comm) k w = k tt (log ESynchronizedFlush w).
Proof. reflexivity. Qed.

Lemma WriteHeader_ok (w : World) :
  code_at 0 w = 0 -> code_at 1 w = 0 -> code_at 2 w = 0 ->
  WriteHeader w = (Ok tt, header_world w).
Proof.
  unfold code_at. cbn [Nat.add]. intros H0 H1 H2.
  rewrite WriteHeader_banner.
  rewrite bind_size_ok by (world_simpl; exact H0).
  rewrite bind_rank_ok by (world_simpl; exact H1).
  rewrite bind_names, bind_print, bind_sync, bind_flush.
  rewrite bind_barrier_ok by (world_simpl; exact H2).
  world_simpl.
  rewrite (sync_events_ranks _ (w_names w) (w_size w) 0).
  reflexivity.
Qed.

Lemma new_events_eq (w w' : World) (es : list event) :
  w_trace w' = (w_trace w ++ es)%list -> new_events w w' = es.
Proof.
  intros E. unfold new_events.
  rewrite E, skipn_app, skipn_all, Nat.sub_diag. reflexivity.
Qed.

Ltac trace_simpl :=
  repeat first [ rewrite trace_log | rewrite trace_bump | rewrite trace_logs ];
  rewrite <- ?app_assoc.

Lemma bind_size_err {B} funct comm (k : Z -> M B) w :
  nth (w_calls w) (w_err w) 0 <> 0 ->
  bind (CHKERRQ funct (MPI_Comm_size comm)) k w
  = (Err (nth (w_calls w) (w_err w) 0),
     log (EError funct (nth (w_calls w) (w_err w) 0)) (bump w)).
Proof. intros H. unfold MPI_Comm_size. apply bind_checked_err, H. Qed.

Lemma bind_rank_err {B} funct comm (k : PerProc Z -> M B) w :
  nth (w_calls w) (w_err w) 0 <> 0 ->
  bind (CHKERRQ funct (MPI_Comm_rank comm)) k w
  = (Err (nth (w_calls w) (w_err w) 0),
     log (EError funct (nth (w_calls w) (w_err w) 0)) (bump w)).
Proof. intros H. unfold MPI_Comm_rank. apply bind_checked_err, H. Qed.

Lemma bind_barrier_err {B} funct comm (k : unit -> M B) w :
  nth (w_calls w) (w_err w) 0 <> 0 ->
  bind (CHKERRQ funct (MPI_Barrier comm)) k w
  = (Err (nth (w_calls w) (w_err w) 0),
     log (EError funct (nth (w_calls w) (w_err w) 0)) (bump w)).
Proof. intros H. unfold MPI_Barrier. apply bind_checked_err, H. Qed.


Lemma WriteHeader_size_fails (w : World) :
  code_at 0 w <> 0 ->
  WriteHeader w
  = (Err (code_at 0 w),
     log (EError "WriteHeader" (code_at 0 w)) (bump (logs banner w))).
Proof.
  unfold code_at. cbn [Nat.add]. intros H0.
  rewrite WriteHeader_banner.
  rewrite bind_size_err by (world_simpl; exact H0).
  world_simpl. reflexivity.
Qed.

Lemma WriteHeader_rank_fails (w : World) :
  code_at 0 w = 0 -> code_at 1 w <> 0 ->
  WriteHeader w
  = (Err (code_at 1 w),
     log (EError "WriteHeader" (code_at 1 w)) (bump (bump (logs banner w)))).
Proof.
  unfold code_at. cbn [Nat.add]. intros H0 H1.
  rewrite WriteHeader_banner.
  rewrite bind_size_ok by (world_simpl; exact H0).
  rewrite bind_rank_err by (world_simpl; exact H1).
  world_simpl. reflexivity.
Qed.

Lemma WriteHeader_barrier_fails (w : World) :
  code_at 0 w = 0 -> code_at 1 w = 0 -> code_at 2 w <> 0 ->
  WriteHeader w
  = (Err (code_at 2 w),
     log (EError "WriteHeader" (code_at 2 w))
       (bump (log ESynchronizedFlush
                (logs (running_lines w)
                   (log (nprocs_line w) (bump (bump (logs banner w)))))))).
Proof.
  unfold code_at. cbn [Nat.add]. intros H0 H1 H2.
  rewrite WriteHeader_banner.
  rewrite bind_size_ok by (world_simpl; exact H0).
  rewrite bind_rank_ok by (world_simpl; exact H1).
  rewrite bind_names, bind_print, bind_sync, bind_flush.
  rewrite bind_barrier_err by (world_simpl; exact H2).
  world_simpl.
  rewrite (sync_events_ranks _ (w_names w) (w_size w) 0).
  reflexivity.
Qed.

Lemma running_lines_no_barrier (w : World) :
  existsb is_barrier (running_lines w) = false.
Proof.
  unfold running_lines. induction (seq 0 (w_size w)) as [| r l IH];
    [reflexivity | exact IH].
Qed.

Lemma firstn_banner (es : list event) :
  firstn 125 (banner ++ es) = banner.
Proof.
  change 125%nat with (List.length banner).
  rewrite firstn_app, firstn_all, Nat.sub_diag. cbn [firstn]. apply app_nil_r.
Qed.

(** X1: when its three checked calls (MPI_Comm_size, MPI_Comm_rank,
    MPI_Barrier) succeed, [WriteHeader] returns MPI_SUCCESS having printed
    the banner, the number of processes, one line per process in rank order
    with the rank and the name of that process, and then flushed and passed
    the barrier; it made three checked calls. *)
Theorem WriteHeader_prints_one_line_per_process :
  forall w : World,
    code_at 0 w = 0 -> code_at 1 w = 0 -> code_at 2 w = 0 ->
    fst (WriteHeader w) = Ok tt /\
    new_events w (snd (WriteHeader w)) = header_events w /\
    List.length (running_lines w) = w_size w /\
    w_calls (snd (WriteHeader w)) = (3 + w_calls w)%nat.
Proof.
  intros w H0 H1 H2. rewrite (WriteHeader_ok w H0 H1 H2). cbn [fst snd].
  split; [reflexivity | ]. split; [ | split].
  - apply new_events_eq. unfold header_world, header_events.
    trace_simpl. reflexivity.
  - unfold running_lines. rewrite length_map, length_seq. reflexivity.
  - unfold header_world. world_simpl. reflexivity.
Qed.

(** X2: [WriteHeader] returns the first nonzero code among those of
    MPI_Comm_size, MPI_Comm_rank and MPI_Barrier, MPI_SUCCESS when there is
    none; the banner is printed in every case; on a failure the last thing
    it does is to report that code, and the barrier is not passed. *)
Theorem WriteHeader_status :
  forall w : World,
    let r := WriteHeader w in
    status (fst r) = first_nonzero [code_at 0 w; code_at 1 w; code_at 2 w] /\
    firstn 125 (new_events w (snd r)) = banner /\
    (status (fst r) <> 0 ->
     last (new_events w (snd r)) EInitialize
       = EError "WriteHeader" (status (fst r)) /\
     existsb is_barrier (new_events w (snd r)) = false).
Proof.
  intros w r. subst r. unfold first_nonzero. cbn [find].
  destruct (Z.eqb_spec (code_at 0 w) 0) as [H0 | H0]; cbn [negb].
  2:{ rewrite (WriteHeader_size_fails w H0). cbn [fst snd status].
      rewrite (new_events_eq w _ (banner ++ [EError "WriteHeader" (code_at 0 w)])%list)
        by (trace_simpl; reflexivity).
      split; [reflexivity | ]. split; [apply firstn_banner | ]. intros _.
      split; [apply last_last | ].
      rewrite existsb_app. reflexivity. }
  destruct (Z.eqb_spec (code_at 1 w) 0) as [H1 | H1]; cbn [negb].
  2:{ rewrite (WriteHeader_rank_fails w H0 H1). cbn [fst snd status].
      rewrite (new_events_eq w _ (banner ++ [EError "WriteHeader" (code_at 1 w)])%list)
        by (trace_simpl; reflexivity).
      split; [reflexivity | ]. split; [apply firstn_banner | ]. intros _.
      split; [apply last_last | ].
      rewrite existsb_app. reflexivity. }
  destruct (Z.eqb_spec (code_at 2 w) 0) as [H2 | H2]; cbn [negb].
  2:{ rewrite (WriteHeader_barrier_fails w H0 H1 H2). cbn [fst snd status].
      rewrite (new_events_eq w _
                 (banner ++ (nprocs_line w :: running_lines w
                             ++ [ESynchronizedFlush])
                  ++ [EError "WriteHeader" (code_at 2 w)])%list)
        by (trace_simpl; cbn [app]; rewrite <- ?app_assoc; reflexivity).
      split; [reflexivity | ]. split; [apply firstn_banner | ]. intros _.
      split.
      - rewrite app_assoc. apply last_last.
      - rewrite !existsb_app. cbn [existsb is_barrier nprocs_line orb].
        rewrite existsb_app, running_lines_no_barrier. reflexivity. }
  rewrite (WriteHeader_ok w H0 H1 H2). cbn [fst snd status].
  split; [reflexivity | ]. split; [ | intros E; contradiction E; reflexivity].
  rewrite (new_events_eq w _ (header_events w))
    by (unfold header_world, header_events; trace_simpl; reflexivity).
  apply firstn_banner.
Qed.

(** *** Statistics *)

Lemma mat_data_log A e w : mat_data A (log e w) = mat_data A w.
Proof. reflexivity. Qed.
Lemma mat_data_bump A w : mat_data A (bump w) = mat_data A w.
Proof. reflexivity. Qed.

Lemma bind_MatGetSize {B} A (k : Z * Z -> M B) w :
  bind (MatGetSize A) k w
  = k (mat_rows (mat_data A w), mat_cols (mat_data A w)) w.
Proof. reflexivity. Qed.

Lemma bind_MatGetLocalSize {B} A (k : PerProc Z * PerProc Z -> M B) w :
  bind (MatGetLocalSize A) k w
  = k (local_rows (mat_data A w), mat_lcols (mat_data A w)) w.
Proof. reflexivity. Qed.

Lemma bind_MatGetNonzeroCount {B} A (k : Z * PerProc Z -> M B) w :
  bind (MatGetNonzeroCount A) k w
  = k (fold_left Z.add (local_nz (mat_data A w)) 0, local_nz (mat_data A w)) w.
Proof. reflexivity. Qed.

Lemma bind_GetComm {B} A (k : MPI_Comm -> M B) w :
  bind (PetscObjectGetComm A) k w = k PETSC_COMM_WORLD w.
Proof. reflexivity. Qed.

Ltac stats_simpl :=
  repeat first [ rewrite mat_data_log | rewrite mat_data_bump ]; world_simpl.




Lemma fold_min_max (v : list Z) (a : Z) :
  fold_left Z.min v a <= a <= fold_left Z.max v a /\
  forall x, In x v -> fold_left Z.min v a <= x <= fold_left Z.max v a.
Proof.
  revert a. induction v as [| y v IH]; intros a; cbn [fold_left].
  - split; [lia | intros x []].
  - destruct (IH (Z.min a y)) as [[L1 _] Lin].
    destruct (IH (Z.max a y)) as [[_ U1] Uin].
    split; [lia | ]. intros x [-> | Hx].
    + lia.
    + split; [apply Lin, Hx | apply Uin, Hx].
Qed.

Lemma reduce_bounds (v : PerProc Z) :
  reduce MPI_MIN v <= reduce MPI_MAX v /\
  forall x, In x v -> reduce MPI_MIN v <= x <= reduce MPI_MAX v.
Proof.
  destruct v as [| a v]; cbn [reduce].
  - split; [lia | intros x []].
  - destruct (fold_min_max v a) as [Ha Hin].
    split; [lia | ]. intros x [<- | Hx]; [exact Ha | apply Hin, Hx].
Qed.

Lemma WriteSimpleMatrixStats_ok (filename : string) (A : Mat) (w : World) :
  (forall i, (i < 6)%nat -> code_at i w = 0) ->
  fst (WriteSimpleMatrixStats filename A w) = Ok tt /\
  w_trace (snd (WriteSimpleMatrixStats filename A w))
    = (w_trace w ++ stats_reductions (mat_data A w)
         ++ stats_lines filename (mat_data A w))%list /\
  w_calls (snd (WriteSimpleMatrixStats filename A w)) = (6 + w_calls w)%nat.
Proof.
  intros Hc.
  pose proof (Hc 0%nat ltac:(lia)) as H0. pose proof (Hc 1%nat ltac:(lia)) as H1.
  pose proof (Hc 2%nat ltac:(lia)) as H2. pose proof (Hc 3%nat ltac:(lia)) as H3.
  pose proof (Hc 4%nat ltac:(lia)) as H4. pose proof (Hc 5%nat ltac:(lia)) as H5.
  unfold code_at in *. cbn [Nat.add] in *.
  unfold WriteSimpleMatrixStats.
  rewrite bind_GetComm, bind_MatGetSize, bind_MatGetLocalSize.
  rewrite bind_reduce_ok by (world_simpl; assumption).
  rewrite bind_reduce_ok by (world_simpl; assumption).
  rewrite bind_reduce_ok by (world_simpl; assumption).
  rewrite bind_reduce_ok by (world_simpl; assumption).
  rewrite bind_MatGetNonzeroCount.
  rewrite bind_reduce_ok by (world_simpl; assumption).
  rewrite bind_reduce_ok by (world_simpl; assumption).
  rewrite !bind_print. unfold ret. cbn [fst snd].
  split; [reflexivity | ]. split.
  - trace_simpl. stats_simpl. reflexivity.
  - world_simpl. reflexivity.
Qed.

(** X4: when its six reductions succeed, [WriteSimpleMatrixStats] makes
    the six reductions and prints the seven lines, in this order; in each
    pair printed for the local rows, local columns and local non-zeros, the
    first number is at most, and the second at least, the count of every
    process. *)
Theorem WriteSimpleMatrixStats_prints_bounds :
  forall (filename : string) (A : Mat) (w : World),
    (forall i, (i < 6)%nat -> code_at i w = 0) ->
    let r := WriteSimpleMatrixStats filename A w in
    let d := mat_data A w in
    fst r = Ok tt /\
    new_events w (snd r) = (stats_reductions d ++ stats_lines filename d)%list /\
    (forall x, In x (local_rows d) ->
               reduce MPI_MIN (local_rows d) <= x <= reduce MPI_MAX (local_rows d)) /\
    (forall x, In x (mat_lcols d) ->
               reduce MPI_MIN (mat_lcols d) <= x <= reduce MPI_MAX (mat_lcols d)) /\
    (forall x, In x (local_nz d) ->
               reduce MPI_MIN (local_nz d) <= x <= reduce MPI_MAX (local_nz d)).
Proof.
  intros filename A w Hc r d. subst r d.
  destruct (WriteSimpleMatrixStats_ok filename A w Hc) as [E [T _]].
  split; [exact E | ]. split; [apply new_events_eq, T | ].
  repeat split; apply reduce_bounds; assumption.
Qed.

(** X5: [WriteHeader] and [WriteSimpleMatrixStats] change neither the
    options nor the files, the matrices or the vectors; the matrix whose
    statistics are written is the same after. *)
Theorem diagnostics_leave_the_state :
  forall (filename : string) (A : Mat) (w : World),
    let w1 := snd (WriteHeader w) in
    let w2 := snd (WriteSimpleMatrixStats filename A w) in
    (w_options w1 = w_options w /\ w_files w1 = w_files w /\
     w_mats w1 = w_mats w /\ w_vecs w1 = w_vecs w) /\
    (w_options w2 = w_options w /\ w_files w2 = w_files w /\
     w_mats w2 = w_mats w /\ w_vecs w2 = w_vecs w /\
     mat_data A w2 = mat_data A w).
Proof.
  intros filename A w w1 w2. subst w1 w2.
  destruct (frames_WriteHeader w) as [a1 a2 _ _ a5 a6 _ _].
  destruct (frames_WriteSimpleMatrixStats filename A w) as [b1 b2 _ _ b5 b6 _ _].
  unfold mat_data. rewrite b5. repeat split; assumption.
Qed.

(** *** main *)

Lemma last_trace_log (e d : event) (w : World) :
  last (w_trace (log e w)) d = e.
Proof. cbn [log w_trace]. apply last_last. Qed.

(** X6: once the -m option is found, the value [main] returns is the code
    the loader returns, 0 included, whatever [WriteHeader] and
    [WriteSimpleMatrixStats] return: their codes are dropped. *)
Theorem main_exit_code_is_the_loader_code :
  forall (len : nat) (L : MatLoader) (argc : Z) (w : World) (v : option string),
    2 <= argc ->
    nth (w_calls w) (w_err w) 0 = 0 ->
    nth (S (w_calls w)) (w_err w) 0 = 0 ->
    lookup "-m" (w_options w) = Some v ->
    fst (main len L argc w)
      = fst (fst (L PETSC_COMM_WORLD (filename_of len v) (header_written w))).
Proof.
  intros len L argc w v Ha H0 H1 Hm.
  rewrite (main_with_matrix len L argc w v H0 Ha H1 Hm).
  destruct (L PETSC_COMM_WORLD (filename_of len v) (header_written w))
    as [[ierr A] w2]. cbn [fst].
  destruct (Z.eqb_spec ierr 0) as [-> | _]; reflexivity.
Qed.

Lemma adds_refl (w : World) : adds_no_finalize w w.
Proof. exists []. rewrite app_nil_r. split; reflexivity. Qed.

Lemma adds_trans (w1 w2 w3 : World) :
  adds_no_finalize w1 w2 -> adds_no_finalize w2 w3 -> adds_no_finalize w1 w3.
Proof.
  intros [es1 [E1 F1]] [es2 [E2 F2]]. exists (es1 ++ es2)%list. split.
  - rewrite E2, E1, app_assoc. reflexivity.
  - rewrite existsb_app, F1, F2. reflexivity.
Qed.

Lemma adds_log (e : event) (w w1 : World) :
  is_finalize e = false -> adds_no_finalize w w1 ->
  adds_no_finalize w (log e w1).
Proof.
  intros He H. apply (adds_trans w w1); [exact H | ].
  exists [e]. split; [reflexivity | cbn; rewrite He; reflexivity].
Qed.

Lemma adds_bump (w w1 : World) :
  adds_no_finalize w w1 -> adds_no_finalize w (bump w1).
Proof. intros [es [E F]]. exists es. split; [exact E | exact F]. Qed.

Lemma adds_logs (es : list event) (w w1 : World) :
  existsb is_finalize es = false -> adds_no_finalize w w1 ->
  adds_no_finalize w (logs es w1).
Proof.
  intros He H. apply (adds_trans w w1); [exact H | ].
  exists es. split; [apply trace_logs | exact He].
Qed.

Lemma adds_new_events (w w' : World) :
  adds_no_finalize w w' -> existsb is_finalize (new_events w w') = false.
Proof. intros [es [E F]]. rewrite (new_events_eq w w' es E). exact F. Qed.

Lemma running_lines_no_finalize (w : World) :
  existsb is_finalize (running_lines w) = false.
Proof.
  unfold running_lines. induction (seq 0 (w_size w)) as [| r l IH];
    [reflexivity | exact IH].
Qed.

Ltac adds_steps :=
  repeat lazymatch goal with
    | |- adds_no_finalize ?w ?w => apply adds_refl
    | |- adds_no_finalize _ (bump _) => apply adds_bump
    | |- adds_no_finalize _ (log _ _) => apply adds_log; [reflexivity | ]
    | |- adds_no_finalize _ (logs (running_lines _) _) =>
        apply adds_logs; [apply running_lines_no_finalize | ]
    | |- adds_no_finalize _ (logs _ _) => apply adds_logs; [reflexivity | ]
    end.

(** [WriteHeader] does not finalize, whether it succeeds or fails. *)
Lemma WriteHeader_adds (w : World) : adds_no_finalize w (snd (WriteHeader w)).
Proof.
  destruct (Z.eq_dec (code_at 0 w) 0) as [H0 | H0];
    [ | rewrite (WriteHeader_size_fails w H0); cbn [snd]; adds_steps].
  destruct (Z.eq_dec (code_at 1 w) 0) as [H1 | H1];
    [ | rewrite (WriteHeader_rank_fails w H0 H1); cbn [snd]; adds_steps].
  destruct (Z.eq_dec (code_at 2 w) 0) as [H2 | H2];
    [ | rewrite (WriteHeader_barrier_fails w H0 H1 H2); cbn [snd]; adds_steps].
  rewrite (WriteHeader_ok w H0 H1 H2). cbn [snd]. unfold header_world.
  adds_steps.
Qed.

Lemma started_adds (w : World) : adds_no_finalize w (started w).
Proof.
  unfold started, initialized. destruct (has_option "-help" w); adds_steps.
Qed.

Lemma spec_loader_never_finalizes : loader_never_finalizes Loader.MatLoadBSMAT.
Proof.
  intros f w. unfold Loader.MatLoadBSMAT, Loader.fail.
  destruct (lookup f (w_files w)) as [[b | v] |]; cbn [snd];
    try (apply adds_log; [reflexivity | apply adds_refl]).
  repeat match goal with
         | |- context [if ?c then _ else _] =>
             destruct c; cbn [snd];
             try (apply adds_log; [reflexivity | apply adds_refl])
         end;
    (exists []; rewrite app_nil_r; split; reflexivity).
Qed.

(** X7: [main] ends either with PetscFinalize, returning 0 or -1, or on
    a failed check ([CHKERRQ]) with the report of the nonzero code it
    returns; in the second case, for a loader that does not finalize
    itself, the run contains no PetscFinalize at all. *)
Theorem main_finalizes_unless_a_check_fails :
  forall (len : nat) (L : MatLoader) (argc : Z) (w : World),
    let r := main len L argc w in
    (last (w_trace (snd r)) EInitialize = EFinalize /\
     (fst r = 0 \/ fst r = -1)) \/
    (last (w_trace (snd r)) EInitialize = EError "main" (fst r) /\
     fst r <> 0 /\
     (loader_never_finalizes L ->
      existsb is_finalize (new_events w (snd r)) = false)).
Proof.
  intros len L argc w r. subst r.
  destruct (Z.eq_dec (nth (w_calls w) (w_err w) 0) 0) as [H0 | H0].
  2:{ right. rewrite (main_init_fails len L argc w H0). cbn [fst snd].
      split; [apply last_trace_log | ]. split; [exact H0 | ].
      intros _. apply adds_new_events. adds_steps. }
  destruct (Z_lt_ge_dec argc 2) as [Ha | Ha].
  { left. rewrite (main_no_argument len L argc w H0 Ha). cbn [fst snd].
    split; [apply last_trace_log | right; reflexivity]. }
  apply Z.ge_le in Ha.
  destruct (Z.eq_dec (nth (S (w_calls w)) (w_err w) 0) 0) as [H1 | H1].
  2:{ right. rewrite (main_lookup_fails len L argc w H0 Ha H1). cbn [fst snd].
      split; [apply last_trace_log | ]. split; [exact H1 | ].
      intros _. apply adds_new_events.
      apply adds_log; [reflexivity | apply started_adds]. }
  destruct (lookup "-m" (w_options w)) as [v |] eqn:Hm.
  - rewrite (main_with_matrix len L argc w v H0 Ha H1 Hm).
    pose proof (fun HL : loader_never_finalizes L =>
                  HL (filename_of len v) (header_written w)) as HL.
    destruct (L PETSC_COMM_WORLD (filename_of len v) (header_written w))
      as [[ierr A] w2].
    destruct (Z.eqb_spec ierr 0) as [E | E]; cbn [fst snd] in *.
    + left. split; [apply last_trace_log | left; reflexivity].
    + right. split; [apply last_trace_log | ]. split; [exact E | ].
      intros Hnf. apply adds_new_events.
      apply adds_log; [reflexivity | ].
      apply (adds_trans w (header_written w)); [ | exact (HL Hnf)].
      apply (adds_trans w (started w)); [apply started_adds | ].
      apply WriteHeader_adds.
  - left. rewrite (main_no_matrix len L argc w H0 Ha H1 Hm). cbn [fst snd].
    split; [apply last_trace_log | right; reflexivity].
Qed.

(** X8: with no argument on the command line (argc < 2) [main] prints the
    help text, finalizes and returns -1 whatever the options database
    holds, -m included: the database is not looked up (one checked call is
    made, that of PetscInitialize) and no matrix is loaded. *)
Theorem main_without_argument_ignores_the_options :
  forall (len : nat) (L : MatLoader) (argc : Z) (w : World),
    argc < 2 ->
    nth (w_calls w) (w_err w) 0 = 0 ->
    fst (main len L argc w) = -1 /\
    w_trace (snd (main len L argc w))
      = (w_trace (initialized w) ++ [EPrintf help []; EFinalize])%list /\
    w_mats (snd (main len L argc w)) = w_mats w /\
    w_calls (snd (main len L argc w)) = S (w_calls w).
Proof.
  intros len L argc w Ha H0.
  rewrite (main_no_argument len L argc w H0 Ha). cbn [fst snd].
  split; [reflexivity | ]. split; [ | split].
  - rewrite !trace_log, <- app_assoc. reflexivity.
  - unfold initialized. destruct (has_option "-help" w); reflexivity.
  - rewrite !calls_log. apply initialized_fields.
Qed.

(** X9: when the loader returns a nonzero code, [main] returns that code
    at once: after the load it only reports the code; it writes no
    statistics, makes no further checked call and does not finalize. *)
Theorem main_reports_a_failed_load :
  forall (len : nat) (L : MatLoader) (argc : Z) (w : World)
         (v : option string) (ierr : PetscErrorCode) (A : Mat) (w2 : World),
    2 <= argc ->
    nth (w_calls w) (w_err w) 0 = 0 ->
    nth (S (w_calls w)) (w_err w) 0 = 0 ->
    lookup "-m" (w_options w) = Some v ->
    L PETSC_COMM_WORLD (filename_of len v) (header_written w)
      = ((ierr, A), w2) ->
    ierr <> 0 ->
    fst (main len L argc w) = ierr /\
    new_events w2 (snd (main len L argc w)) = [EError "main" ierr] /\
    w_mats (snd (main len L argc w)) = w_mats w2 /\
    w_calls (snd (main len L argc w)) = w_calls w2.
Proof.
  intros len L argc w v ierr A w2 Ha H0 H1 Hm HL Hi.
  rewrite (main_with_matrix len L argc w v H0 Ha H1 Hm), HL.
  destruct (Z.eqb_spec ierr 0) as [E | _]; [contradiction | ].
  cbn [fst snd]. split; [reflexivity | ]. split; [ | split; reflexivity].
  apply new_events_eq. reflexivity.
Qed.

(** *** -script *)

Lemma agree_initialized (ks : list string) (w1 w2 : World) :
  ~ In "-help" ks -> agree ks w1 w2 ->
  agree ks (initialized w1) (initialized w2).
Proof.
  intros Hh Ag. unfold initialized, has_option.
  rewrite (ag_options _ _ _ Ag "-help" Hh).
  destruct (lookup "-help" (w_options w2));
    repeat apply agree_log; apply agree_bump, Ag.
Qed.

Lemma main_agree (ks : list string) (len : nat) (L : MatLoader) (argc : Z)
  (w1 w2 : World) :
  ~ In "-m" ks -> ~ In "-help" ks -> loader_ignores ks L ->
  agree ks w1 w2 ->
  fst (main len L argc w1) = fst (main len L argc w2) /\
  agree ks (snd (main len L argc w1)) (snd (main len L argc w2)).
Proof.
  intros Hm Hh HL Ag.
  assert (E0 : nth (w_calls w1) (w_err w1) 0 = nth (w_calls w2) (w_err w2) 0)
    by (rewrite (ag_err _ _ _ Ag), (ag_calls _ _ _ Ag); reflexivity).
  assert (E1 : nth (S (w_calls w1)) (w_err w1) 0
               = nth (S (w_calls w2)) (w_err w2) 0)
    by (rewrite (ag_err _ _ _ Ag), (ag_calls _ _ _ Ag); reflexivity).
  pose proof (agree_initialized ks w1 w2 Hh Ag) as AgI.
  destruct (Z.eq_dec (nth (w_calls w2) (w_err w2) 0) 0) as [H0 | H0].
  2:{ rewrite (main_init_fails len L argc w2 H0).
      rewrite <- E0 in H0. rewrite (main_init_fails len L argc w1 H0).
      cbn [fst snd]. rewrite E0.
      split; [reflexivity | apply agree_log, agree_bump, Ag]. }
  assert (H0' := H0). rewrite <- E0 in H0'.
  destruct (Z_lt_ge_dec argc 2) as [Ha | Ha].
  { rewrite (main_no_argument len L argc w1 H0' Ha),
      (main_no_argument len L argc w2 H0 Ha). cbn [fst snd].
    split; [reflexivity | repeat apply agree_log; exact AgI]. }
  apply Z.ge_le in Ha.
  destruct (Z.eq_dec (nth (S (w_calls w2)) (w_err w2) 0) 0) as [H1 | H1].
  2:{ rewrite (main_lookup_fails len L argc w2 H0 Ha H1).
      rewrite <- E1 in H1. rewrite (main_lookup_fails len L argc w1 H0' Ha H1).
      cbn [fst snd]. rewrite E1.
      split; [reflexivity | apply agree_log, agree_bump, AgI]. }
  assert (H1' := H1). rewrite <- E1 in H1'.
  pose proof (ag_options _ _ _ Ag "-m" Hm) as Em.
  destruct (lookup "-m" (w_options w2)) as [v |] eqn:Hm2.
  - rewrite (main_with_matrix len L argc w1 v H0' Ha H1' Em),
      (main_with_matrix len L argc w2 v H0 Ha H1 Hm2).
    assert (AgH : agree ks (header_written w1) (header_written w2)).
    { unfold header_written, started.
      apply (respects_WriteHeader ks), agree_bump, AgI. }
    destruct (HL (filename_of len v) _ _ AgH) as [EL AgL].
    destruct (L PETSC_COMM_WORLD (filename_of len v) (header_written w1))
      as [[i1 A1] u1],
      (L PETSC_COMM_WORLD (filename_of len v) (header_written w2))
      as [[i2 A2] u2]; cbn [fst snd] in *.
    injection EL as -> ->.
    destruct (i2 =? 0); cbn [fst snd].
    + split; [reflexivity | ]. apply agree_log.
      apply (respects_WriteSimpleMatrixStats ks), AgL.
    + split; [reflexivity | apply agree_log, AgL].
  - rewrite (main_no_matrix len L argc w1 H0' Ha H1' Em),
      (main_no_matrix len L argc w2 H0 Ha H1 Hm2). cbn [fst snd].
    split; [reflexivity | repeat apply agree_log; apply agree_bump, AgI].
Qed.

Lemma main_same_test (len : nat) (L : MatLoader) (argc1 argc2 : Z)
  (w : World) :
  (argc1 < 2 <-> argc2 < 2) -> main len L argc1 w = main len L argc2 w.
Proof.
  intros Ha. unfold main, main_body.
  destruct (Z.ltb_spec argc1 2), (Z.ltb_spec argc2 2); try reflexivity; lia.
Qed.

(** X10: the -script option has no effect: both branches of the test on
    it are empty, and for every loader that does not consult -script, a
    run with -script returns the code, and leaves the trace and the
    matrices, of a run without it, the two command lines both having an
    argument or both having none. *)
Theorem main_ignores_script :
  forall (len : nat) (L : MatLoader) (argc argc' : Z) (w : World)
         (script : option string),
    loader_ignores ["-script"] L ->
    (argc' < 2 <-> argc < 2) ->
    fst (main len L argc' (set_option "-script" script w))
      = fst (main len L argc w) /\
    w_trace (snd (main len L argc' (set_option "-script" script w)))
      = w_trace (snd (main len L argc w)) /\
    w_mats (snd (main len L argc' (set_option "-script" script w)))
      = w_mats (snd (main len L argc w)).
Proof.
  intros len L argc argc' w script HL Ha.
  rewrite (main_same_test len L argc' argc _ Ha).
  destruct (main_agree ["-script"] len L argc
              (set_option "-script" script w) w) as [E Ag].
  - cbn. intros [H | []]. discriminate H.
  - cbn. intros [H | []]. discriminate H.
  - exact HL.
  - apply agree_set_option.
  - split; [exact E | ].
    split; [apply (ag_trace _ _ _ Ag) | apply (ag_mats _ _ _ Ag)].
Qed.

(** *** A whole run *)

Lemma started_fields (w : World) :
  w_size (started w) = w_size w /\
  w_names (started w) = w_names w /\
  w_err (started w) = w_err w /\
  w_calls (started w) = (2 + w_calls w)%nat /\
  w_trace (started w) = w_trace (initialized w).
Proof.
  unfold started, initialized.
  destruct (has_option "-help" w); repeat split.
Qed.

(** X11: in a run in which every checked call and the load succeed,
    [main] returns 0; the loader starts once the whole header is printed,
    and after the load the run makes the six reductions, prints the seven
    statistics lines and finalizes, and nothing else. *)
Theorem main_successful_run_output :
  forall (len : nat) (L : MatLoader) (argc : Z) (w : World)
         (v : option string) (A : Mat) (w2 : World),
    2 <= argc ->
    (forall i, (i < 5)%nat -> code_at i w = 0) ->
    lookup "-m" (w_options w) = Some v ->
    L PETSC_COMM_WORLD (filename_of len v) (header_written w)
      = ((MPI_SUCCESS, A), w2) ->
    (forall i, (i < 6)%nat -> code_at i w2 = 0) ->
    fst (main len L argc w) = 0 /\
    w_trace (header_written w)
      = (w_trace (initialized w) ++ header_events w)%list /\
    new_events w2 (snd (main len L argc w))
      = (stats_reductions (mat_data A w2)
           ++ stats_lines (filename_of len v) (mat_data A w2)
           ++ [EFinalize])%list.
Proof.
  intros len L argc w v A w2 Ha Hc Hm HL Hc2.
  pose proof (Hc 0%nat ltac:(lia)) as H0. pose proof (Hc 1%nat ltac:(lia)) as H1.
  pose proof (Hc 2%nat ltac:(lia)) as H2. pose proof (Hc 3%nat ltac:(lia)) as H3.
  pose proof (Hc 4%nat ltac:(lia)) as H4.
  unfold code_at in H0, H1, H2, H3, H4. cbn [Nat.add] in H0, H1, H2, H3, H4.
  destruct (started_fields w) as (Ss & Sn & Se & Sc & St).
  rewrite (main_with_matrix len L argc w v H0 Ha H1 Hm), HL.
  cbn [MPI_SUCCESS Z.eqb fst snd]. split; [reflexivity | ]. split.
  - unfold header_written.
    rewrite WriteHeader_ok
      by (unfold code_at; rewrite Se, Sc; cbn [Nat.add]; assumption).
    cbn [snd]. unfold header_world, header_events, nprocs_line, running_lines.
    trace_simpl. world_simpl. rewrite St, Ss, Sn. reflexivity.
  - destruct (WriteSimpleMatrixStats_ok (filename_of len v) A w2 Hc2)
      as [_ [T _]].
    apply new_events_eq. rewrite trace_log, T, <- !app_assoc. reflexivity.
Qed.

Lemma WriteHeader_prints_one_line_per_process_witness :
  fst (WriteHeader Sample.with_matrix) = Ok tt /\
  new_events Sample.with_matrix (snd (WriteHeader Sample.with_matrix))
    = header_events Sample.with_matrix /\
  List.length (running_lines Sample.with_matrix) = 2%nat.
Proof.
  destruct (WriteHeader_prints_one_line_per_process Sample.with_matrix)
    as [E [T [N _]]]; try reflexivity.
  split; [exact E | ]. split; [exact T | exact N].
Defined.

Lemma WriteSimpleMatrixStats_prints_bounds_witness :
  fst (WriteSimpleMatrixStats "cycle.bsmat" 0%nat (loaded_world [])) = Ok tt /\
  new_events (loaded_world [])
    (snd (WriteSimpleMatrixStats "cycle.bsmat" 0%nat (loaded_world [])))
    = (stats_reductions (mat_data 0%nat (loaded_world []))
       ++ stats_lines "cycle.bsmat" (mat_data 0%nat (loaded_world [])))%list.
Proof.
  destruct (WriteSimpleMatrixStats_prints_bounds "cycle.bsmat" 0%nat
              (loaded_world [])) as [E [T _]].
  - intros i Hi.
    destruct i as [| [| [| [| [| [| i]]]]]]; try reflexivity; lia.
  - split; [exact E | exact T].
Defined.

Lemma main_exit_code_is_the_loader_code_witness :
  fst (ppagerank 3 Sample.flaky_stats) = 0 /\
  In (EError "WriteSimpleMatrixStats" 7)
     (w_trace (snd (ppagerank 3 Sample.flaky_stats))).
Proof.
  unfold ppagerank. split.
  - rewrite (main_exit_code_is_the_loader_code 4096 Loader.MatLoadBSMAT 3
               Sample.flaky_stats (Some "cycle.bsmat"));
      [vm_compute; reflexivity | lia | reflexivity | reflexivity | reflexivity].
  - vm_compute. tauto.
Defined.

Lemma main_without_argument_ignores_the_options_witness :
  lookup "-m" (w_options Sample.with_matrix) = Some (Some "cycle.bsmat") /\
  fst (ppagerank 1 Sample.with_matrix) = -1 /\
  w_mats (snd (ppagerank 1 Sample.with_matrix)) = [].
Proof.
  unfold ppagerank. split; [reflexivity | ].
  destruct (main_without_argument_ignores_the_options 4096
              Loader.MatLoadBSMAT 1 Sample.with_matrix) as [E [_ [Mt _]]];
    [lia | reflexivity | ].
  split; [exact E | exact Mt].
Defined.

Lemma main_reports_a_failed_load_witness :
  fst (ppagerank 3 Sample.missing_matrix) = Loader.PETSC_ERR_FILE_OPEN /\
  w_mats (snd (ppagerank 3 Sample.missing_matrix)) = [].
Proof.
  unfold ppagerank.
  destruct (main_reports_a_failed_load 4096 Loader.MatLoadBSMAT 3
              Sample.missing_matrix (Some "missing.bsmat")
              Loader.PETSC_ERR_FILE_OPEN 0%nat
              (snd (Loader.MatLoadBSMAT PETSC_COMM_WORLD "missing.bsmat"
                      (header_written Sample.missing_matrix))))
    as [E [_ [Mt _]]];
    [lia | reflexivity | reflexivity | reflexivity
     | vm_compute; reflexivity | discriminate | ].
  split; [exact E | ]. rewrite Mt. vm_compute. reflexivity.
Defined.

Lemma main_ignores_script_witness :
  fst (ppagerank 4 (set_option "-script" None Sample.with_matrix))
    = fst (ppagerank 3 Sample.with_matrix) /\
  w_trace (snd (ppagerank 4 (set_option "-script" None Sample.with_matrix)))
    = w_trace (snd (ppagerank 3 Sample.with_matrix)).
Proof.
  unfold ppagerank.
  destruct (main_ignores_script 4096 Loader.MatLoadBSMAT 3 4
              Sample.with_matrix None) as [E [T _]].
  - apply spec_loader_ignores; cbn; intros [H | []]; discriminate H.
  - lia.
  - split; [exact E | exact T].
Defined.

Lemma main_finalizes_unless_a_check_fails_witness :
  fst (ppagerank 3 Sample.missing_matrix) <> 0 /\
  existsb is_finalize
    (new_events Sample.missing_matrix
       (snd (ppagerank 3 Sample.missing_matrix))) = false.
Proof.
  unfold ppagerank.
  assert (E : fst (main 4096 Loader.MatLoadBSMAT 3 Sample.missing_matrix)
              = Loader.PETSC_ERR_FILE_OPEN) by (vm_compute; reflexivity).
  destruct (main_finalizes_unless_a_check_fails 4096 Loader.MatLoadBSMAT 3
              Sample.missing_matrix) as [[_ [Z0 | Z1]] | [_ [Hne Hnf]]].
  - rewrite E in Z0. discriminate Z0.
  - rewrite E in Z1. discriminate Z1.
  - split; [exact Hne | apply Hnf, spec_loader_never_finalizes].
Defined.

Lemma main_successful_run_output_witness :
  fst (ppagerank 3 Sample.with_matrix) = 0 /\
  w_trace (header_written Sample.with_matrix)
    = (w_trace (initialized Sample.with_matrix)
         ++ header_events Sample.with_matrix)%list.
Proof.
  unfold ppagerank.
  destruct (main_successful_run_output 4096 Loader.MatLoadBSMAT 3
              Sample.with_matrix (Some "cycle.bsmat") 0%nat
              (snd (Loader.MatLoadBSMAT PETSC_COMM_WORLD "cycle.bsmat"
                      (header_written Sample.with_matrix))))
    as [E [T _]].
  - lia.
  - intros i Hi. destruct i as [| [| [| [| [| i]]]]]; try reflexivity; lia.
  - reflexivity.
  - vm_compute. reflexivity.
  - intros i Hi.
    destruct i as [| [| [| [| [| [| i]]]]]]; try (vm_compute; reflexivity); lia.
  - split; [exact E | exact T].
Defined.
